(** * Optimistic mutations, card actions and message-edit drafts

    A shallow embedding of the card actions ([src/libs/actions/Card.ts]),
    of the message edit composer
    ([src/pages/home/report/ReportActionItemMessageEdit.js]) and of the
    distance edit page ([EditRequestDistancePage]), together with the
    contracts of the collaborators they call (the local store, the
    mutation dispatcher, the debounce timer), and the properties the
    specification states about them.

    Part I holds the definitions, Part II the theorems. *)

From Stdlib Require Import ZArith Ascii String List Lia.
From stdpp Require Import gmap strings list fin_maps pretty.

#[local] Set Warnings "-register-all".
#[local] Open Scope string_scope.
#[local] Open Scope list_scope.
#[local] Open Scope nat_scope.

(** * Part I: definitions *)

(** ** JSON values *)

(** JSON-serializable values.  A JS object is a finite map from property
    names to values. *)
Inductive json : Type :=
  | JNull
  | JBool (b : bool)
  | JNum (n : Z)
  | JStr (s : string)
  | JArr (l : list json)
  | JObj (m : gmap string json).

Fixpoint json_size (v : json) : nat :=
  match v with
  | JArr l => S (foldr (λ x acc, json_size x + acc) 0 l)
  | JObj m => S (map_fold (λ _ x acc, json_size x + acc) 0 m)
  | _ => 1
  end.

(** [value?.p]: property [p] of a value that may be undefined. *)
Definition prop (p : string) (o : option json) : option json :=
  match o with
  | Some (JObj m) => m !! p
  | _ => None
  end.

(** A settled promise. *)
Inductive Settled (A E : Type) : Type :=
  | Resolved (a : A)
  | Rejected (e : E).
Arguments Resolved {A E} a.
Arguments Rejected {A E} e.

(** ** The local store (react-native-onyx) *)

Module Onyx.

(** [Onyx.METHOD] *)
Inductive METHOD : Type := MERGE | SET.

(** One entry of an [optimisticData] / [successData] / [failureData]
    array: [{onyxMethod, key, value}]. *)
Record OnyxUpdate : Type := mkUpdate {
  onyxMethod : METHOD;
  key : string;
  value : json;
}.

(** Modelled from the spec: react-native-onyx is an external library.
    By section 4.1, [merge] deep-merges the partial value into the
    existing one: mapping keys unioned, arrays replaced wholesale, scalars
    overwritten. *)
Fixpoint deep_merge (v p : json) {struct v} : json :=
  match p, v with
  | JObj pm, JObj vm =>
      JObj (union_with (λ x y, Some (deep_merge x y)) vm pm)
  | _, _ => p
  end.

(** Modelled from the spec: the action of one update on the value held
    at its key ([None] when the key was never written).  Section 4.1:
    [set] replaces wholesale, [merge] deep-merges; section 3: an entry is
    created on the first write to its key. *)
Definition write_value (mth : METHOD) (p : json) (o : option json) : json :=
  match mth, o with
  | MERGE, Some v => deep_merge v p
  | _, _ => p
  end.

Definition apply_update (u : OnyxUpdate) (s : gmap string json) : gmap string json :=
  <[key u := write_value (onyxMethod u) (value u) (s !! key u)]> s.

(** [Onyx.merge(key, value)] *)
Definition merge (k : string) (p : json) (s : gmap string json) : gmap string json :=
  apply_update (mkUpdate MERGE k p) s.

(** [Onyx.set(key, value)] *)
Definition set (k : string) (p : json) (s : gmap string json) : gmap string json :=
  apply_update (mkUpdate SET k p) s.

(** [Onyx.update(data)]: section 4.1, the updates of one batch apply in
    call order. *)
Definition update (us : list OnyxUpdate) (s : gmap string json) : gmap string json :=
  foldl (λ acc u, apply_update u acc) s us.

End Onyx.

(** ** Store keys *)

(** Modelled from the spec: [ONYXKEYS] is not part of the sources at hand;
    section 6 says that store keys are strings.  Each key is represented
    by its qualified name, so that different names are different keys. *)
Module ONYXKEYS.
Definition CARD_LIST : string := "CARD_LIST".
Module FORMS.
Definition REPORT_VIRTUAL_CARD_FRAUD : string := "FORMS.REPORT_VIRTUAL_CARD_FRAUD".
Definition REPORT_PHYSICAL_CARD_FORM : string := "FORMS.REPORT_PHYSICAL_CARD_FORM".
End FORMS.
End ONYXKEYS.

(** ** The mutation dispatcher ([@libs/API]) *)

Module API.

(** The third argument of [write]. *)
Record OnyxData : Type := mkData {
  optimisticData : list Onyx.OnyxUpdate;
  successData : list Onyx.OnyxUpdate;
  failureData : list Onyx.OnyxUpdate;
}.

Record Request : Type := mkRequest {
  command : string;
  params : gmap string json;
  data : OnyxData;
}.

(** What the command queue reports for a request (section 6: an eventual
    success or failure signal with a status code). *)
Inductive Signal : Type :=
  | Acknowledged
  | WrongStatus (jsonCode : Z)
  | NetworkFailure.

Inductive PatchSet : Type := Optimistic | OnSuccess | OnFailure.

(** What the dispatcher did, in order.  A request is named by its rank
    among the requests ever written: every call of [write] makes a new
    one. *)
Inductive Event : Type :=
  | Applied (id : nat) (which : PatchSet)
  | Sent (id : nat).

Definition event_id (e : Event) : nat :=
  match e with
  | Applied id _ | Sent id => id
  end.

Record Dispatcher : Type := mkDispatcher {
  store : gmap string json;
  queue : list (nat * Request);
  log : list Event;
  issued : nat;
}.

(** A dispatcher that has not been used yet, over the store [s]. *)
Definition init (s : gmap string json) : Dispatcher :=
  {| store := s; queue := []; log := []; issued := 0 |}.

(** By section 4.2, a malformed response (wrong status code) is treated
    identically to a network failure. *)
Definition outcome (sig : Signal) : PatchSet :=
  match sig with
  | Acknowledged => OnSuccess
  | WrongStatus _ | NetworkFailure => OnFailure
  end.

Definition patches (which : PatchSet) (r : Request) : list Onyx.OnyxUpdate :=
  match which with
  | Optimistic => optimisticData (data r)
  | OnSuccess => successData (data r)
  | OnFailure => failureData (data r)
  end.

(** Modelled from the spec: [API.write] is not part of the sources at
    hand.  Section 4.2, steps 1 and 2: it applies every patch of
    [optimisticData] to the local store synchronously, before any network
    activity, and enqueues the request on the command queue. *)
Definition write (name : string) (ps : gmap string json) (od : OnyxData)
    (d : Dispatcher) : Dispatcher :=
  let r := mkRequest name ps od in
  {| store := Onyx.update (optimisticData od) (store d);
     queue := queue d ++ [(issued d, r)];
     log := log d ++ [Applied (issued d) Optimistic];
     issued := S (issued d) |}.

(** Modelled from the spec: the command queue is an external collaborator.
    By section 4.2, step 3, the request at the head of the queue is sent; on
    an acknowledgement indicating success its [successData] is applied, on
    a failure its [failureData]. *)
Definition resolve (sig : Signal) (d : Dispatcher) : Dispatcher :=
  match queue d with
  | [] => d
  | (id, r) :: q =>
      {| store := Onyx.update (patches (outcome sig) r) (store d);
         queue := q;
         log := log d ++ [Sent id; Applied id (outcome sig)];
         issued := issued d |}
  end.

(** The queue is served in order, one signal per request. *)
Definition drain (sigs : list Signal) (d : Dispatcher) : Dispatcher :=
  foldl (λ acc sig, resolve sig acc) d sigs.

(** The events that concern the request [id]. *)
Definition own (id : nat) (l : list Event) : list Event :=
  filter (λ e, event_id e = id) l.

(** Requests are numbered below [issued]. *)
Definition wf (d : Dispatcher) : Prop :=
  Forall (λ e, event_id e < issued d) (log d)
  ∧ Forall (λ q : nat * Request, q.1 < issued d) (queue d).

End API.

(** ** Card actions ([src/libs/actions/Card.ts]) *)

Module Card.

(** The object literal [{isLoading: b}]. *)
Definition isLoading (b : bool) : json := JObj {[ "isLoading" := JBool b ]}.

(** The object literal [{isLoading: true, errors: null}]. *)
Definition loadingWithoutErrors : json :=
  JObj {[ "isLoading" := JBool true; "errors" := JNull ]}.

(** The object literal [{[cardID]: v}]: the number becomes the property
    name in its decimal notation. *)
Definition byCardID (cardID : Z) (v : json) : json := JObj {[ pretty cardID := v ]}.

Definition reportVirtualExpensifyCardFraudData : API.OnyxData :=
  {| API.optimisticData :=
       [Onyx.mkUpdate Onyx.MERGE ONYXKEYS.FORMS.REPORT_VIRTUAL_CARD_FRAUD (isLoading true)];
     API.successData :=
       [Onyx.mkUpdate Onyx.MERGE ONYXKEYS.FORMS.REPORT_VIRTUAL_CARD_FRAUD (isLoading false)];
     API.failureData :=
       [Onyx.mkUpdate Onyx.MERGE ONYXKEYS.FORMS.REPORT_VIRTUAL_CARD_FRAUD (isLoading false)] |}.

Definition reportVirtualExpensifyCardFraud (cardID : Z) (d : API.Dispatcher) : API.Dispatcher :=
  API.write "ReportVirtualExpensifyCardFraud" {[ "cardID" := JNum cardID ]}
    reportVirtualExpensifyCardFraudData d.

Definition requestReplacementExpensifyCardData : API.OnyxData :=
  {| API.optimisticData :=
       [Onyx.mkUpdate Onyx.MERGE ONYXKEYS.FORMS.REPORT_PHYSICAL_CARD_FORM loadingWithoutErrors];
     API.successData :=
       [Onyx.mkUpdate Onyx.MERGE ONYXKEYS.FORMS.REPORT_PHYSICAL_CARD_FORM (isLoading false)];
     API.failureData :=
       [Onyx.mkUpdate Onyx.MERGE ONYXKEYS.FORMS.REPORT_PHYSICAL_CARD_FORM (isLoading false)] |}.

Definition requestReplacementExpensifyCard (cardId : Z) (reason : string)
    (d : API.Dispatcher) : API.Dispatcher :=
  API.write "RequestReplacementExpensifyCard"
    {[ "cardId" := JNum cardId; "reason" := JStr reason ]}
    requestReplacementExpensifyCardData d.

Definition activatePhysicalExpensifyCardData (cardID : Z) : API.OnyxData :=
  {| API.optimisticData :=
       [Onyx.mkUpdate Onyx.MERGE ONYXKEYS.CARD_LIST
          (byCardID cardID (JObj {[ "errors" := JNull; "isLoading" := JBool true ]}))];
     API.successData :=
       [Onyx.mkUpdate Onyx.MERGE ONYXKEYS.CARD_LIST (byCardID cardID (isLoading false))];
     API.failureData :=
       [Onyx.mkUpdate Onyx.MERGE ONYXKEYS.CARD_LIST (byCardID cardID (isLoading false))] |}.

Definition activatePhysicalExpensifyCard (cardLastFourDigits : string) (cardID : Z)
    (d : API.Dispatcher) : API.Dispatcher :=
  API.write "ActivatePhysicalExpensifyCard"
    {[ "cardLastFourDigits" := JStr cardLastFourDigits; "cardID" := JNum cardID ]}
    (activatePhysicalExpensifyCardData cardID) d.

Definition clearCardListErrors (cardID : Z) (s : gmap string json) : gmap string json :=
  Onyx.merge ONYXKEYS.CARD_LIST
    (byCardID cardID (JObj {[ "errors" := JNull; "isLoading" := JBool false ]})) s.

Section reveal.

(** [CONST.JSON_CODE.SUCCESS], [Localize.translateLocal] and
    [API.makeRequestWithSideEffects] are not part of the sources at hand.
    The latter is given by how the promise it returns settles, for a
    command and its parameters: fulfilled with a response, which may be
    undefined, or rejected with an error. *)
Variable JSON_CODE_SUCCESS : Z.
Variable translateLocal : string → string.
Variable E : Type.
Variable makeRequestWithSideEffects : string → gmap string json → Settled (option json) E.

(** [response?.jsonCode !== CONST.JSON_CODE.SUCCESS]: strict inequality
    with a number holds for an undefined response, a missing code and a
    code of another type. *)
Definition jsonCodeIsNotSuccess (response : option json) : bool :=
  match prop "jsonCode" response with
  | Some (JNum n) => negb (n =? JSON_CODE_SUCCESS)%Z
  | _ => true
  end.

(** [revealVirtualCardDetails(cardID)]: how the returned promise settles.
    The store is threaded through the function, whose handlers do not
    write to it. *)
Definition revealVirtualCardDetails (cardID : Z) (s : gmap string json)
    : gmap string json * Settled (option json) string :=
  match makeRequestWithSideEffects "RevealExpensifyCardDetails" {[ "cardID" := JNum cardID ]} with
  | Resolved response =>
      if jsonCodeIsNotSuccess response
      then (s, Rejected (translateLocal "cardPage.cardDetailsLoadingFailure"))
      else (s, Resolved response)
  | Rejected _ =>
      (s, Rejected (translateLocal "cardPage.cardDetailsLoadingFailure"))
  end.

End reveal.

End Card.

(** ** JS strings *)

(** Strings are sequences of code units below 256. *)
Module JS.

(** White space and line terminators, as [String.prototype.trim] removes
    them: TAB, LF, VT, FF, CR, SP and NBSP. *)
Definition isWhiteSpace (c : ascii) : bool :=
  let n := nat_of_ascii c in
  ((9 <=? n) && (n <=? 13)) || (n =? 32) || (n =? 160).

Fixpoint trimStart (s : string) : string :=
  match s with
  | String c s' => if isWhiteSpace c then trimStart s' else s
  | EmptyString => EmptyString
  end.

Definition trimEnd (s : string) : string :=
  String.rev (trimStart (String.rev s)).

(** [s.trim()] *)
Definition trim (s : string) : string := trimEnd (trimStart s).

(** [s.length] *)
Definition length (s : string) : Z := Z.of_nat (String.length s).

(** [s.slice(start)]: a negative [start] counts from the end. *)
Definition slice (s : string) (start : Z) : string :=
  let len := length s in
  let from := if (start <? 0)%Z then Z.max (len + start) 0 else Z.min start len in
  substring (Z.to_nat from) (Z.to_nat (len - from)) s.

End JS.

(** ** underscore *)

Module Underscore.

Definition quot : ascii := ascii_of_nat 34.

(** [_.escape]: the characters of underscore's escape map are replaced
    by their HTML entities. *)
Definition escapeChar (c : ascii) : string :=
  match nat_of_ascii c with
  | 38 => "&amp;"
  | 60 => "&lt;"
  | 62 => "&gt;"
  | 34 => "&quot;"
  | 39 => "&#x27;"
  | 96 => "&#x60;"
  | _ => String c EmptyString
  end.

Fixpoint escape (s : string) : string :=
  match s with
  | String c s' => (escapeChar c ++ escape s')%string
  | EmptyString => EmptyString
  end.

(** Modelled from the spec: underscore is an external library.  Sections
    4.3 and 5: a debounced function delivers its latest argument once the
    wait has passed since the latest call; a newer call supersedes the
    pending one, and [cancel] drops it for good.  The state is the pending
    delivery, if any: when it is due and with which argument. *)
Definition debounced (A : Type) : Type := option (nat * A).

(** Calling the debounced function at time [now]. *)
Definition call {A} (wait now : nat) (a : A) (t : debounced A) : debounced A :=
  Some (now + wait, a).

(** [debounced.cancel()] *)
Definition cancel {A} (t : debounced A) : debounced A := None.

(** The timer at time [now]: a due delivery is handed over. *)
Definition fire {A} (now : nat) (t : debounced A) : debounced A * list A :=
  match t with
  | Some (due, a) => if due <=? now then (None, [a]) else (t, [])
  | None => (None, [])
  end.

End Underscore.

(** ** The message edit composer
    ([src/pages/home/report/ReportActionItemMessageEdit.js]) *)

Module ReportActionItemMessageEdit.

(** [props.action], as far as the component reads it:
    [action.reportActionID] and [action.message[0].html]. *)
Record Action : Type := mkAction {
  reportActionID : string;
  message_0_html : string;
}.

(** [props.report], as far as the component reads it. *)
Record Report : Type := mkReport {
  parentReportActionID : option string;
  parentReportID : option string;
}.

(** The result of [EmojiUtils.replaceEmojis]; either field may be
    undefined. *)
Record ReplacedEmojis (Emoji : Type) : Type := mkReplaced {
  text : option string;
  emojis : option (list Emoji);
}.
Arguments mkReplaced {Emoji} text emojis.
Arguments text {Emoji} r.
Arguments emojis {Emoji} r.

(** The calls the component makes to other modules, in order.  The two
    callbacks that [publishDraft] passes to [showDeleteModal] ([deleteDraft]
    on confirmation, refocusing the input otherwise) are run by the modal
    later, if at all; they are no part of the call. *)
Inductive Effect (Emoji : Type) : Type :=
  | Report_saveReportActionDraft (reportID reportActionID draftMessage : string)
  | Report_editReportComment (reportID : option string) (action : Action) (textForNewComment : string)
  | ReportActionContextMenu_showDeleteModal (reportID : option string) (action : Action)
      (shouldSetModalVisibility : bool)
  | ComposerActions_setShouldShowComposeInput (shouldShow : bool)
  | ReportActionComposeFocusManager_focus
  | Keyboard_addListener (eventName : string)
  | User_updateFrequentlyUsedEmojis (frequentlyUsed : list Emoji).
Arguments Report_saveReportActionDraft {Emoji} reportID reportActionID draftMessage.
Arguments Report_editReportComment {Emoji} reportID action textForNewComment.
Arguments ReportActionContextMenu_showDeleteModal {Emoji} reportID action shouldSetModalVisibility.
Arguments ComposerActions_setShouldShowComposeInput {Emoji} shouldShow.
Arguments ReportActionComposeFocusManager_focus {Emoji}.
Arguments Keyboard_addListener {Emoji} eventName.
Arguments User_updateFrequentlyUsedEmojis {Emoji} frequentlyUsed.

(** The state of a mounted component: the values of the [draft] and
    [selection] hooks, the timer of [debouncedSaveDraft], and the clock
    (in milliseconds). *)
Record State : Type := mkState {
  draft : string;
  selection : Z * Z;
  debouncedSaveDraft : Underscore.debounced string;
  clock : nat;
}.

(** What the user and the timer do to a mounted component. *)
Inductive Input : Type :=
  | ChangeText (newDraftInput : string)
  | PressSave
  | PressCancel
  | Elapse (ms : nat).

Section component.

(** Helpers and constants that are not part of the sources at hand. *)
Variable Emoji : Type.
Variable SkinTone : Type.
Variable replaceEmojis : string → SkinTone → ReplacedEmojis Emoji.
Variable getFrequentlyUsedEmojis : list Emoji → list Emoji.
Variable getCommentLength : string → nat.
Variable MAX_COMMENT_LENGTH : nat.

(** The props. *)
Variable reportID : string.
Variable action : Action.
Variable report : Report.
Variable index : Z.
Variable preferredSkinTone : SkinTone.

(** The function passed to [_.debounce(..., 1000)]. *)
Definition saveDraft (newDraft : string) : Effect Emoji :=
  Report_saveReportActionDraft reportID (reportActionID action) newDraft.

(** The argument [updateDraft] hands to [debouncedSaveDraft]. *)
Definition draftToSave (newDraft : string) : string :=
  if (0 <? JS.length (JS.trim newDraft))%Z
  then Underscore.escape newDraft
  else message_0_html action.

Definition updateDraft (newDraftInput : string) (st : State) : State * list (Effect Emoji) :=
  let r := replaceEmojis newDraftInput preferredSkinTone in
  let newDraft := default EmptyString (text r) in
  let found := default [] (emojis r) in
  let frequent :=
    match found with
    | [] => []
    | _ => [User_updateFrequentlyUsedEmojis (getFrequentlyUsedEmojis found)]
    end in
  let prevDraft := draft st in
  let newSelection :=
    if negb (String.eqb newDraftInput newDraft)
    then
      let remainder := JS.length (JS.slice prevDraft (selection st).2) in
      (JS.length newDraft - remainder, JS.length newDraft - remainder)%Z
    else selection st in
  ({| draft := newDraft;
      selection := newSelection;
      debouncedSaveDraft :=
        Underscore.call 1000 (clock st) (draftToSave newDraft) (debouncedSaveDraft st);
      clock := clock st |},
   frequent).

Definition deleteDraft (st : State) : State * list (Effect Emoji) :=
  ({| draft := draft st;
      selection := selection st;
      debouncedSaveDraft := Underscore.cancel (debouncedSaveDraft st);
      clock := clock st |},
   [Report_saveReportActionDraft reportID (reportActionID action) EmptyString;
    ComposerActions_setShouldShowComposeInput true;
    ReportActionComposeFocusManager_focus]
   ++ (if (index =? 0)%Z then [Keyboard_addListener "keyboardDidHide"] else [])).

Definition publishDraft (st : State) : State * list (Effect Emoji) :=
  if MAX_COMMENT_LENGTH <? getCommentLength (draft st) then (st, [])
  else
    let st1 :=
      {| draft := draft st;
         selection := selection st;
         debouncedSaveDraft := Underscore.cancel (debouncedSaveDraft st);
         clock := clock st |} in
    let trimmedNewDraft := JS.trim (draft st) in
    let reportID' :=
      if bool_decide (parentReportActionID report = Some (reportActionID action))
      then parentReportID report
      else Some reportID in
    if String.eqb trimmedNewDraft EmptyString
    then (st1, [ReportActionContextMenu_showDeleteModal reportID' action false])
    else
      let '(st2, effects) := deleteDraft st1 in
      (st2, Report_editReportComment reportID' action trimmedNewDraft :: effects).

(** Time passes: the clock advances and a due debounced call is
    delivered. *)
Definition elapse (ms : nat) (st : State) : State * list (Effect Emoji) :=
  let now := clock st + ms in
  let '(timer, delivered) := Underscore.fire now (debouncedSaveDraft st) in
  ({| draft := draft st;
      selection := selection st;
      debouncedSaveDraft := timer;
      clock := now |},
   saveDraft <$> delivered).

(** The component's reaction to one input: [onChangeText], the save and
    cancel buttons, the timer. *)
Definition step (i : Input) (st : State) : State * list (Effect Emoji) :=
  match i with
  | ChangeText newDraftInput => updateDraft newDraftInput st
  | PressSave => publishDraft st
  | PressCancel => deleteDraft st
  | Elapse ms => elapse ms st
  end.

Fixpoint steps (inputs : list Input) (st : State) : State * list (Effect Emoji) :=
  match inputs with
  | [] => (st, [])
  | i :: inputs' =>
      let '(st1, effects1) := step i st in
      let '(st2, effects2) := steps inputs' st1 in
      (st2, effects1 ++ effects2)
  end.

(** The draft writes among a list of calls. *)
Definition draftWrites (effects : list (Effect Emoji)) : list string :=
  omap (λ e, match e with
             | Report_saveReportActionDraft _ _ d => Some d
             | _ => None
             end) effects.

(** The edit mutations among a list of calls. *)
Definition editMutations (effects : list (Effect Emoji)) : list string :=
  omap (λ e, match e with
             | Report_editReportComment _ _ t => Some t
             | _ => None
             end) effects.

(** *** Mounting *)

(** [ExpensiMark.htmlToMarkdown] and [Str.htmlDecode] are not part of the
    sources at hand. *)
Variable htmlToMarkdown : string → string.
Variable htmlDecode : string → string.

(** The initial value of the [draft] hook, for the [draftMessage] prop. *)
Definition initialDraft (draftMessage : string) : string :=
  if String.eqb draftMessage (message_0_html action)
  then JS.trim (htmlToMarkdown draftMessage)
  else htmlDecode draftMessage.

(** The component mounted at time [now]: the first effect has put the
    selection at the end of the draft, and no save is pending. *)
Definition mounted (draftMessage : string) (now : nat) : State :=
  let d := initialDraft draftMessage in
  {| draft := d;
     selection := (JS.length d, JS.length d);
     debouncedSaveDraft := None;
     clock := now |}.

End component.

Arguments draftWrites {Emoji} effects.
Arguments editMutations {Emoji} effects.

(** What lies outside the component: the persisted drafts by owner key
    (report and report action), the comments themselves (the permanent
    entities, by report action), the shared composer, the delete
    confirmation, and the edit mutations handed to the dispatcher. *)
Record World : Type := mkWorld {
  drafts : gmap (string * string) string;
  comments : gmap string string;
  shouldShowComposeInput : bool;
  composerFocused : bool;
  deleteModalVisible : bool;
  dispatched : list (option string * string * string);
}.

(** Modelled from the spec: the action modules the component calls
    ([Report], [ComposerActions], [ReportActionComposeFocusManager],
    [ReportActionContextMenu]) are not part of the sources at hand.
    By sections 4.3 and 6, persisting a draft sets the value at its owner
    key; committed content reaches the permanent entity only through the
    named edit mutation, which patches the comment optimistically; the shared
    composer has a visibility and a focus state. *)
Definition perform {Emoji : Type} (e : Effect Emoji) (w : World) : World :=
  match e with
  | Report_saveReportActionDraft rid aid d =>
      {| drafts := <[(rid, aid) := d]> (drafts w); comments := comments w;
         shouldShowComposeInput := shouldShowComposeInput w;
         composerFocused := composerFocused w;
         deleteModalVisible := deleteModalVisible w;
         dispatched := dispatched w |}
  | Report_editReportComment rid a t =>
      {| drafts := drafts w;
         comments := <[reportActionID a := t]> (comments w);
         shouldShowComposeInput := shouldShowComposeInput w;
         composerFocused := composerFocused w;
         deleteModalVisible := deleteModalVisible w;
         dispatched := dispatched w ++ [(rid, reportActionID a, t)] |}
  | ReportActionContextMenu_showDeleteModal _ _ _ =>
      {| drafts := drafts w; comments := comments w;
         shouldShowComposeInput := shouldShowComposeInput w;
         composerFocused := composerFocused w;
         deleteModalVisible := true;
         dispatched := dispatched w |}
  | ComposerActions_setShouldShowComposeInput b =>
      {| drafts := drafts w; comments := comments w;
         shouldShowComposeInput := b;
         composerFocused := composerFocused w;
         deleteModalVisible := deleteModalVisible w;
         dispatched := dispatched w |}
  | ReportActionComposeFocusManager_focus =>
      {| drafts := drafts w; comments := comments w;
         shouldShowComposeInput := shouldShowComposeInput w;
         composerFocused := true;
         deleteModalVisible := deleteModalVisible w;
         dispatched := dispatched w |}
  | Keyboard_addListener _ | User_updateFrequentlyUsedEmojis _ => w
  end.

Definition performAll {Emoji : Type} (effects : list (Effect Emoji)) (w : World) : World :=
  foldl (λ acc e, perform e acc) w effects.

End ReportActionItemMessageEdit.

(** ** The distance edit page ([EditRequestDistancePage]) *)

Module EditRequestDistancePage.

(** A transaction, as far as the page is concerned. *)
Record Transaction : Type := mkTransaction {
  transactionID : string;
  waypoints : json;
}.

(** The calls the page makes to the [IOU] actions. *)
Inductive Call : Type :=
  | IOU_setDistanceRequestTransactionID (transactionID : string)
  | IOU_updateDistanceRequest (transactionID reportID : string) (waypoints : json).

(** The transactions held in the local store, by transaction ID, the
    calls made so far, and how many temporary transactions have been
    created so far. *)
Record State : Type := mkState {
  transactions : gmap string Transaction;
  calls : list Call;
  created : nat;
}.

(** What React keeps of the latest render of the mounted page: the prop
    [transaction], which [saveTransaction] closes over, and
    [transactionToEdit], which the child is given and which the cleanup of
    the second effect closes over. *)
Record Rendered : Type := mkRendered {
  transaction : Transaction;
  transactionToEdit : Transaction;
}.

(** What happens to a mounted page: it is rendered again, with the prop
    [transaction] of that moment; the [DistanceRequest] child edits the
    waypoints; the user submits; the page is unmounted. *)
Inductive Input : Type :=
  | Render (transaction : Transaction)
  | EditWaypoints (w : json)
  | Submit
  | Unmount.

Section page.

(** The ID that [TransactionUtils.createTemporaryTransaction] gives to the
    copy it makes of a transaction at its n-th call.  That function is not
    part of the sources at hand and nothing is assumed of the IDs: they
    may be the same from call to call or new each time. *)
Variable temporaryTransactionID : nat → Transaction → string.

(** The props [transactionID] and [report.reportID]. *)
Variable props_transactionID : string.
Variable props_reportID : string.

(** Modelled from the spec: [TransactionUtils.createTemporaryTransaction]
    is not part of the sources at hand.  Sections 2 and 3: a temporary
    transaction copy is a draft layered over the local store, created
    explicitly; every call makes one. *)
Definition createTemporaryTransaction (t : Transaction) (st : State) : Transaction * State :=
  let copy := mkTransaction (temporaryTransactionID (created st) t) (waypoints t) in
  (copy, {| transactions := <[transactionID copy := copy]> (transactions st);
            calls := calls st;
            created := S (created st) |}).

(** Modelled from the spec: [TransactionUtils.removeTemporaryTransaction]
    is not part of the sources at hand.  Section 3: a draft is destroyed on
    commit or explicit cancel. *)
Definition removeTemporaryTransaction (id : string) (st : State) : State :=
  {| transactions := delete id (transactions st);
     calls := calls st;
     created := created st |}.

(** Modelled from the spec: the [DistanceRequest] component is not part of
    the sources at hand.  It edits the transaction whose ID it is given
    (section 4.3: [updateDraft] replaces the content of the draft). *)
Definition editWaypoints (id : string) (w : json) (st : State) : State :=
  {| transactions := alter (λ t, mkTransaction (transactionID t) w) id (transactions st);
     calls := calls st;
     created := created st |}.

(** The body of the function, which runs at every render: it makes a
    temporary transaction of the prop [transaction]. *)
Definition render (transaction : Transaction) (st : State) : Rendered * State :=
  let '(transactionToEdit, st1) := createTemporaryTransaction transaction st in
  ({| transaction := transaction; transactionToEdit := transactionToEdit |}, st1).

(** The first render and the effects after it: the first effect calls
    [IOU.setDistanceRequestTransactionID], the second only leaves its
    cleanup behind. *)
Definition mount (transaction : Transaction) (st : State) : Rendered * State :=
  let '(rendered, st1) := render transaction st in
  (rendered,
   {| transactions := transactions st1;
      calls := calls st1 ++ [IOU_setDistanceRequestTransactionID props_transactionID];
      created := created st1 |}).

(** A later render.  The body runs again.  The first effect has no
    dependencies and does not run again.  The second effect depends on
    [transactionToEdit], which is a new object: React runs the cleanup that
    the previous render left behind, with the [transactionToEdit] of that
    render, and leaves the new cleanup behind. *)
Definition rerender (transaction : Transaction) (previous : Rendered) (st : State)
    : Rendered * State :=
  let '(rendered, st1) := render transaction st in
  (rendered, removeTemporaryTransaction (transactionID (transactionToEdit previous)) st1).

(** [saveTransaction(waypoints)] *)
Definition saveTransaction (rendered : Rendered) (w : json) (st : State) : State :=
  {| transactions := transactions st;
     calls := calls st
              ++ [IOU_updateDistanceRequest (transactionID (transaction rendered))
                    props_reportID w];
     created := created st |}.

(** The cleanup of the second effect, at unmount. *)
Definition unmount (rendered : Rendered) (st : State) : State :=
  removeTemporaryTransaction (transactionID (transactionToEdit rendered)) st.

(** One input to the page, which is mounted as long as there is a latest
    render.  [DistanceRequest] is rendered with the ID of
    [transactionToEdit] and with [saveTransaction] as [onSubmit], which it
    calls with the waypoints of the transaction it edits. *)
Definition step (i : Input) (page : option Rendered * State) : option Rendered * State :=
  match page.1 with
  | None => page
  | Some rendered =>
      let id := transactionID (transactionToEdit rendered) in
      match i with
      | Render transaction =>
          let '(rendered', st') := rerender transaction rendered page.2 in
          (Some rendered', st')
      | EditWaypoints w => (Some rendered, editWaypoints id w page.2)
      | Submit =>
          (Some rendered,
           match transactions page.2 !! id with
           | Some t => saveTransaction rendered (waypoints t) page.2
           | None => page.2
           end)
      | Unmount => (None, unmount rendered page.2)
      end
  end.

(** A whole session: the page is mounted with the prop [transaction],
    then the inputs in order. *)
Definition session (transaction : Transaction) (inputs : list Input) (st : State)
    : option Rendered * State :=
  let '(rendered, st1) := mount transaction st in
  foldl (λ acc i, step i acc) (Some rendered, st1) inputs.

(** The calls that update a distance request. *)
Definition updates (cs : list Call) : list Call :=
  omap (λ c, match c with
             | IOU_updateDistanceRequest _ _ _ => Some c
             | _ => None
             end) cs.

End page.

End EditRequestDistancePage.

(** ** A sample environment *)

(** Stand-ins for the helpers and props of the message edit composer, for
    running it on concrete inputs: texts without emoji codes, which
    [replaceEmojis] returns as they are, and a comment length that counts
    the characters of the draft. *)
Module Sample.

Definition replaceEmojis (newDraftInput : string) (skinTone : unit)
    : ReportActionItemMessageEdit.ReplacedEmojis unit :=
  ReportActionItemMessageEdit.mkReplaced (Some newDraftInput) (Some []).

Definition getFrequentlyUsedEmojis (found : list unit) : list unit := found.

Definition getCommentLength (textComment : string) : nat := String.length textComment.

Definition MAX_COMMENT_LENGTH : nat := 10 * 1000.

Definition reportID : string := "42".

Definition action : ReportActionItemMessageEdit.Action :=
  ReportActionItemMessageEdit.mkAction "1001" "Hello".

Definition report : ReportActionItemMessageEdit.Report :=
  ReportActionItemMessageEdit.mkReport None None.

(** A draft that consists of [n] line feeds. *)
Definition lineFeeds (n : nat) : string :=
  string_of_list_ascii (repeat (ascii_of_nat 10) n).

(** A composer just opened on the comment, nothing pending. *)
Definition editing (draft : string) : ReportActionItemMessageEdit.State :=
  ReportActionItemMessageEdit.mkState draft (0%Z, 0%Z) None 0.

Definition steps :=
  ReportActionItemMessageEdit.steps unit unit replaceEmojis getFrequentlyUsedEmojis
    getCommentLength MAX_COMMENT_LENGTH reportID action report 1%Z tt.

(** The world around it: the draft is persisted, the composer hidden. *)
Definition world : ReportActionItemMessageEdit.World :=
  ReportActionItemMessageEdit.mkWorld
    {[ ("42", "1001") := "Hello" ]} {[ "1001" := "Hello" ]} false false false [].

End Sample.

(** ** Batches seen from one key *)

Module Replay.

(** The updates of a batch that address the key [k], as operations on the
    value held there. *)
Definition ops_at (k : string) (us : list Onyx.OnyxUpdate) : list (Onyx.METHOD * json) :=
  omap (λ u, if decide (Onyx.key u = k)
             then Some (Onyx.onyxMethod u, Onyx.value u) else None) us.

Definition run (ops : list (Onyx.METHOD * json)) (o : option json) : option json :=
  foldl (λ acc op, Some (Onyx.write_value op.1 op.2 acc)) o ops.

(** An operation whose result does not depend on the value it finds. *)
Definition absolute (op : Onyx.METHOD * json) : bool :=
  match op with
  | (Onyx.MERGE, JObj _) => false
  | _ => true
  end.

Definition ops_size (ops : list (Onyx.METHOD * json)) : nat :=
  foldr (λ op acc, json_size op.2 + acc) 0 ops.

Definition obj_merge (pm : gmap string json) : Onyx.METHOD * json := (Onyx.MERGE, JObj pm).

(** The merges that a list of object merges induces on property [k]. *)
Definition ops_below (k : string) (pms : list (gmap string json)) : list (Onyx.METHOD * json) :=
  omap (λ pm : gmap string json, (λ y, (Onyx.MERGE, y)) <$> pm !! k) pms.

End Replay.

(** ** The more-features page of a workspace
    ([src/pages/workspace/WorkspaceMoreFeaturesPage.tsx]) *)

Module WorkspaceMoreFeaturesPage.

(** [Illustrations.*], as far as the page uses them. *)
Inductive Illustration : Type := Car | Workflows | FolderOpen | Tag | Coins | Accounting.

(** The config of an accounting connection, as far as the page reads it:
    [syncTax] of QuickBooks Online and [importTaxRates] of Xero. *)
Record ConnectionConfig : Type := mkConfig {
  syncTax : option bool;
  importTaxRates : option bool;
}.

Record Connection : Type := mkConnection {
  config : ConnectionConfig;
}.

Record Tax : Type := mkTax {
  trackingEnabled : option bool;
}.

(** The policy, as far as the page reads it.  [pendingFields] maps field
    names to pending actions, [connections] connection names to
    connections. *)
Record Policy : Type := mkPolicy {
  id : string;
  areDistanceRatesEnabled : option bool;
  areWorkflowsEnabled : option bool;
  areCategoriesEnabled : option bool;
  areTagsEnabled : option bool;
  areConnectionsEnabled : option bool;
  tax : option Tax;
  connections : option (gmap string Connection);
  pendingFields : option (gmap string string);
}.

(** The calls the page makes to other modules. *)
Inductive Call : Type :=
  | Policy_enablePolicyDistanceRates (policyID : string) (enabled : bool)
  | Policy_enablePolicyWorkflows (policyID : string) (enabled : bool)
  | Category_enablePolicyCategories (policyID : string) (enabled : bool)
  | Tag_enablePolicyTags (policyID : string) (enabled : bool)
  | Policy_enablePolicyTaxes (policyID : string) (enabled : bool)
  | Policy_enablePolicyConnections (policyID : string) (enabled : bool)
  | Policy_clearPolicyErrorField (policyID : string) (fieldName : string)
  | Policy_openPolicyMoreFeaturesPage (policyID : string)
  | Navigation_navigate (route : string).

(** The two state hooks of the page. *)
Record State : Type := mkState {
  isOrganizeWarningModalOpen : bool;
  isIntegrateWarningModalOpen : bool;
}.

(** The type [Item]; [action] and [onCloseError] are given by what they do
    to the state and which calls they make. *)
Record Item (Errors : Type) : Type := mkItem {
  icon : Illustration;
  titleTranslationKey : string;
  subtitleTranslationKey : string;
  isActive : bool;
  disabled : option bool;
  action : bool → State → State * list Call;
  pendingAction : option string;
  errors : option Errors;
  onCloseError : option (list Call);
}.
Arguments mkItem {Errors}.
Arguments icon {Errors} i.
Arguments titleTranslationKey {Errors} i.
Arguments subtitleTranslationKey {Errors} i.
Arguments isActive {Errors} i.
Arguments disabled {Errors} i.
Arguments action {Errors} i.
Arguments pendingAction {Errors} i.
Arguments errors {Errors} i.
Arguments onCloseError {Errors} i.

(** The type [SectionObject]. *)
Record SectionObject (Errors : Type) : Type := mkSection {
  sectionTitleTranslationKey : string;
  sectionSubtitleTranslationKey : string;
  items : list (Item Errors);
}.
Arguments mkSection {Errors}.
Arguments sectionTitleTranslationKey {Errors} s.
Arguments sectionSubtitleTranslationKey {Errors} s.
Arguments items {Errors} s.

(** [!!x] for a boolean that may be undefined. *)
Definition truthy (x : option bool) : bool := default false x.

Section page_body.

(** Helpers, constants and hooks that are not part of the sources at hand:
    [isEmptyObject], [ErrorUtils.getLatestErrorField],
    [CONST.POLICY.MORE_FEATURES.ARE_CONNECTIONS_ENABLED],
    [ROUTES.POLICY_ACCOUNTING.getRoute] and the result of
    [usePermissions]. *)
Variable Errors : Type.
Variable isEmptyObject : option (gmap string Connection) → bool.
Variable getLatestErrorField : option Policy → string → Errors.
Variable ARE_CONNECTIONS_ENABLED : string.
Variable POLICY_ACCOUNTING_getRoute : string → string.
Variable canUseAccountingIntegrations : bool.

(** The props: the policy, which may be undefined, and
    [route.params.policyID]. *)
Variable policy : option Policy.
Variable route_params_policyID : string.

Definition hasAccountingConnection : bool :=
  truthy (policy ≫= areConnectionsEnabled) && negb (isEmptyObject (policy ≫= connections)).

Definition isSyncTaxEnabled : bool :=
  truthy (c ← (policy ≫= connections) ≫= (.!! "quickbooksOnline"); syncTax (config c))
  || truthy (c ← (policy ≫= connections) ≫= (.!! "xero"); importTaxRates (config c)).

(** [policy?.id ?? ''] *)
Definition policyID : string := default EmptyString (id <$> policy).

(** [policy?.pendingFields?.name] *)
Definition pendingField (name : string) : option string :=
  (policy ≫= pendingFields) ≫= (.!! name).

Definition openOrganizeWarning (st : State) : State :=
  {| isOrganizeWarningModalOpen := true;
     isIntegrateWarningModalOpen := isIntegrateWarningModalOpen st |}.

Definition openIntegrateWarning (st : State) : State :=
  {| isOrganizeWarningModalOpen := isOrganizeWarningModalOpen st;
     isIntegrateWarningModalOpen := true |}.

Definition spendItems : list (Item Errors) :=
  [ {| icon := Car;
       titleTranslationKey := "workspace.moreFeatures.distanceRates.title";
       subtitleTranslationKey := "workspace.moreFeatures.distanceRates.subtitle";
       isActive := default false (policy ≫= areDistanceRatesEnabled);
       disabled := None;
       pendingAction := pendingField "areDistanceRatesEnabled";
       action := λ isEnabled st, (st, [Policy_enablePolicyDistanceRates policyID isEnabled]);
       errors := None;
       onCloseError := None |};
    {| icon := Workflows;
       titleTranslationKey := "workspace.moreFeatures.workflows.title";
       subtitleTranslationKey := "workspace.moreFeatures.workflows.subtitle";
       isActive := default false (policy ≫= areWorkflowsEnabled);
       disabled := None;
       pendingAction := pendingField "areWorkflowsEnabled";
       action := λ isEnabled st, (st, [Policy_enablePolicyWorkflows policyID isEnabled]);
       errors := None;
       onCloseError := None |} ].

Definition organizeItems : list (Item Errors) :=
  [ {| icon := FolderOpen;
       titleTranslationKey := "workspace.moreFeatures.categories.title";
       subtitleTranslationKey := "workspace.moreFeatures.categories.subtitle";
       isActive := default false (policy ≫= areCategoriesEnabled);
       disabled := Some hasAccountingConnection;
       pendingAction := pendingField "areCategoriesEnabled";
       action := λ isEnabled st,
         if hasAccountingConnection then (openOrganizeWarning st, [])
         else (st, [Category_enablePolicyCategories policyID isEnabled]);
       errors := None;
       onCloseError := None |};
    {| icon := Tag;
       titleTranslationKey := "workspace.moreFeatures.tags.title";
       subtitleTranslationKey := "workspace.moreFeatures.tags.subtitle";
       isActive := default false (policy ≫= areTagsEnabled);
       disabled := Some hasAccountingConnection;
       pendingAction := pendingField "areTagsEnabled";
       action := λ isEnabled st,
         if hasAccountingConnection then (openOrganizeWarning st, [])
         else (st, [Tag_enablePolicyTags policyID isEnabled]);
       errors := None;
       onCloseError := None |};
    {| icon := Coins;
       titleTranslationKey := "workspace.moreFeatures.taxes.title";
       subtitleTranslationKey := "workspace.moreFeatures.taxes.subtitle";
       isActive := default false ((policy ≫= tax) ≫= trackingEnabled) || isSyncTaxEnabled;
       disabled := Some hasAccountingConnection;
       pendingAction := pendingField "tax";
       action := λ isEnabled st,
         if hasAccountingConnection then (openOrganizeWarning st, [])
         else (st, [Policy_enablePolicyTaxes policyID isEnabled]);
       errors := None;
       onCloseError := None |} ].

Definition integrateItems : list (Item Errors) :=
  [ {| icon := Accounting;
       titleTranslationKey := "workspace.moreFeatures.connections.title";
       subtitleTranslationKey := "workspace.moreFeatures.connections.subtitle";
       isActive := truthy (policy ≫= areConnectionsEnabled);
       pendingAction := pendingField "areConnectionsEnabled";
       action := λ isEnabled st,
         if hasAccountingConnection then (openIntegrateWarning st, [])
         else (st, [Policy_enablePolicyConnections policyID isEnabled]);
       disabled := Some hasAccountingConnection;
       errors := Some (getLatestErrorField policy ARE_CONNECTIONS_ENABLED);
       onCloseError := Some [Policy_clearPolicyErrorField policyID ARE_CONNECTIONS_ENABLED] |} ].

Definition sections : list (SectionObject Errors) :=
  [ {| sectionTitleTranslationKey := "workspace.moreFeatures.spendSection.title";
       sectionSubtitleTranslationKey := "workspace.moreFeatures.spendSection.subtitle";
       items := spendItems |};
    {| sectionTitleTranslationKey := "workspace.moreFeatures.organizeSection.title";
       sectionSubtitleTranslationKey := "workspace.moreFeatures.organizeSection.subtitle";
       items := organizeItems |} ]
  ++ (if canUseAccountingIntegrations
      then [ {| sectionTitleTranslationKey := "workspace.moreFeatures.integrateSection.title";
                sectionSubtitleTranslationKey := "workspace.moreFeatures.integrateSection.subtitle";
                items := integrateItems |} ]
      else []).

(** [fetchFeatures], run on focus and on reconnection. *)
Definition fetchFeatures : list Call :=
  [Policy_openPolicyMoreFeaturesPage route_params_policyID].

(** [onConfirm] and [onCancel] of the first [ConfirmModal]. *)
Definition organizeWarning_onConfirm (st : State) : State * list Call :=
  ({| isOrganizeWarningModalOpen := false;
      isIntegrateWarningModalOpen := isIntegrateWarningModalOpen st |},
   [Navigation_navigate (POLICY_ACCOUNTING_getRoute policyID)]).

Definition organizeWarning_onCancel (st : State) : State * list Call :=
  ({| isOrganizeWarningModalOpen := false;
      isIntegrateWarningModalOpen := isIntegrateWarningModalOpen st |}, []).

(** [onConfirm] and [onCancel] of the second [ConfirmModal]. *)
Definition integrateWarning_onConfirm (st : State) : State * list Call :=
  ({| isOrganizeWarningModalOpen := isOrganizeWarningModalOpen st;
      isIntegrateWarningModalOpen := false |},
   [Navigation_navigate (POLICY_ACCOUNTING_getRoute policyID)]).

Definition integrateWarning_onCancel (st : State) : State * list Call :=
  ({| isOrganizeWarningModalOpen := isOrganizeWarningModalOpen st;
      isIntegrateWarningModalOpen := false |}, []).

(** All the items the page renders, section by section. *)
Definition renderedItems : list (Item Errors) :=
  concat (items <$> sections).

End page_body.

(** The feature switch that a call sets, with the policy and the value. *)
Definition enabling (c : Call) : option (string * bool) :=
  match c with
  | Policy_enablePolicyDistanceRates p b
  | Policy_enablePolicyWorkflows p b
  | Category_enablePolicyCategories p b
  | Tag_enablePolicyTags p b
  | Policy_enablePolicyTaxes p b
  | Policy_enablePolicyConnections p b => Some (p, b)
  | _ => None
  end.

End WorkspaceMoreFeaturesPage.

(** ** The map view for the web (the second part of
    [src/modules/react-native-wallet/ios/RNWallet.m]) *)

Module MapView.

Section map.

(** JS numbers are left abstract: the component compares and computes
    coordinates through helpers only. *)
Variable Num : Type.
Variable zero : Num.

(** [{longitude, latitude}] *)
Record Position : Type := mkPosition {
  longitude : Num;
  latitude : Num;
}.

(** A waypoint, as far as the component reads it. *)
Record Waypoint : Type := mkWaypoint {
  coordinate : Num * Num;
  id : string;
}.

(** [initialState] *)
Record InitialState : Type := mkInitialState {
  location : Num * Num;
  zoom : Num;
}.

(** What the component asks of the map, of the location service and of
    the user-location action. *)
Inductive Call : Type :=
  | getCurrentPosition
  | setUserLocation (coords : Position)
  | flyTo (center : Num * Num) (zoomLevel : Num)
  | fitBounds (first second : Num * Num).

(** The hooks that the effects below read and write:
    [shouldInitializeCurrentPosition] is the ref, [mapRef] is given by
    whether the map is there. *)
Record State : Type := mkState {
  currentPosition : option Position;
  userInteractedWithMap : bool;
  shouldInitializeCurrentPosition : bool;
  mapRef : bool;
}.

(** Helpers and constants that are not part of the sources at hand:
    [utils.areSameCoordinate], [utils.getBounds] (its result is
    [(northEast, southWest)]) and the zoom levels of [CONST.MAPBOX]. *)
Variable areSameCoordinate : Num * Num → Num * Num → bool.
Variable getBounds : list (Num * Num) → option (list (Num * Num)) → (Num * Num) * (Num * Num).
Variable DEFAULT_ZOOM : Num.
Variable SINGLE_MARKER_ZOOM : Num.

(** The props. *)
Variable waypoints : option (list Waypoint).
Variable cachedUserLocation : option Position.
Variable initialState : option InitialState.
Variable directionCoordinates : option (list (Num * Num)).

(** [!waypoints || waypoints.length === 0] *)
Definition noWaypoints : bool :=
  match waypoints with
  | None | Some [] => true
  | Some (_ :: _) => false
  end.

Definition shouldPanMapToCurrentPosition (st : State) : bool :=
  negb (userInteractedWithMap st) && noWaypoints.

Definition setCurrentPosition (p : Position) (st : State) : State :=
  {| currentPosition := Some p;
     userInteractedWithMap := userInteractedWithMap st;
     shouldInitializeCurrentPosition := shouldInitializeCurrentPosition st;
     mapRef := mapRef st |}.

Definition setCurrentPositionToInitialState (st : State) : State :=
  match cachedUserLocation, initialState with
  | None, Some i => setCurrentPosition (mkPosition (location i).1 (location i).2) st
  | _, _ => st
  end.

(** The focus effect, run with the network state of the moment. *)
Definition onFocus (isOffline : bool) (st : State) : State * list Call :=
  if isOffline then (st, [])
  else if negb (shouldInitializeCurrentPosition st) then (st, [])
  else
    let st1 :=
      {| currentPosition := currentPosition st;
         userInteractedWithMap := userInteractedWithMap st;
         shouldInitializeCurrentPosition := false;
         mapRef := mapRef st |} in
    if negb (shouldPanMapToCurrentPosition st1)
    then (setCurrentPositionToInitialState st1, [])
    else (st1, [getCurrentPosition]).

(** The two callbacks handed to [getCurrentPosition]. *)
Definition onPositionFound (coords : Position) (st : State) : State * list Call :=
  (setCurrentPosition coords st, [setUserLocation coords]).

Definition onPositionError (st : State) : State * list Call :=
  (setCurrentPositionToInitialState st, []).

(** [onDrag] *)
Definition onDrag (st : State) : State * list Call :=
  ({| currentPosition := currentPosition st;
      userInteractedWithMap := true;
      shouldInitializeCurrentPosition := shouldInitializeCurrentPosition st;
      mapRef := mapRef st |}, []).

(** The map has been created: [setRef]. *)
Definition onMapLoaded (st : State) : State * list Call :=
  ({| currentPosition := currentPosition st;
      userInteractedWithMap := userInteractedWithMap st;
      shouldInitializeCurrentPosition := shouldInitializeCurrentPosition st;
      mapRef := true |}, []).

(** The effect that pans the map to the current position. *)
Definition panToCurrentPosition (st : State) : list Call :=
  match currentPosition st with
  | Some p =>
      if negb (mapRef st) then []
      else if negb (shouldPanMapToCurrentPosition st) then []
      else [flyTo (longitude p, latitude p) DEFAULT_ZOOM]
  | None => []
  end.

(** [resetBoundaries]: the argument of [toggleCenterButton], if it is
    called, and the calls to the map (without the padding option). *)
Definition resetBoundaries (st : State) : option bool * list Call :=
  match waypoints with
  | None | Some [] => (None, [])
  | Some (w :: ws) =>
      if negb (mapRef st) then (None, [])
      else
        match ws with
        | [] =>
            let here :=
              (default zero (longitude <$> currentPosition st),
               default zero (latitude <$> currentPosition st)) in
            (Some (negb (areSameCoordinate here (coordinate w))),
             [flyTo (coordinate w) SINGLE_MARKER_ZOOM])
        | _ :: _ =>
            let '(northEast, southWest) :=
              getBounds (coordinate <$> (w :: ws)) directionCoordinates in
            (Some false, [fitBounds northEast southWest])
        end
  end.

(** What happens to a mounted map view. *)
Inductive Input : Type :=
  | Focus (isOffline : bool)
  | PositionFound (coords : Position)
  | PositionError
  | Drag
  | MapLoaded.

Definition step (i : Input) (st : State) : State * list Call :=
  match i with
  | Focus isOffline => onFocus isOffline st
  | PositionFound coords => onPositionFound coords st
  | PositionError => onPositionError st
  | Drag => onDrag st
  | MapLoaded => onMapLoaded st
  end.

Fixpoint steps (inputs : list Input) (st : State) : State * list Call :=
  match inputs with
  | [] => (st, [])
  | i :: inputs' =>
      let '(st1, calls1) := step i st in
      let '(st2, calls2) := steps inputs' st1 in
      (st2, calls1 ++ calls2)
  end.

(** How often the location service is asked. *)
Definition positionRequests (calls : list Call) : nat :=
  length (omap (λ c, match c with getCurrentPosition => Some c | _ => None end) calls).

(** The positions handed to [setUserLocation]. *)
Definition savedLocations (calls : list Call) : list Position :=
  omap (λ c, match c with setUserLocation p => Some p | _ => None end) calls.

End map.

End MapView.

(** ** The wallet module for iOS
    ([src/modules/react-native-wallet/ios/RNWallet.m]) *)

Module RNWallet.

Definition supportedEvents : list string :=
  ["getPassAndActivation"; "addPaymentPassViewControllerDidFinish"].

Section wallet.

(** [NSData] values and the completion handlers of PassKit are left
    abstract; so are the two Foundation methods that encode data to
    Base64 and decode it (the latter gives nil for a string that is not
    Base64). *)
Variable Data : Type.
Variable Handler : Type.
Variable base64EncodedString : Data → string.
Variable initWithBase64EncodedString : string → option Data.

(** [PKAddPaymentPassRequest], with the three properties the module sets. *)
Record PKAddPaymentPassRequest : Type := mkPassRequest {
  activationData : option Data;
  encryptedPassData : option Data;
  ephemeralPublicKey : option Data;
}.

(** What the module does to the outside. *)
Inductive Effect : Type :=
  | sendEventWithName (name : string) (body : json)
  | callCompletionHandler (handler : Handler) (request : PKAddPaymentPassRequest)
  | dismissViewController
  | presentViewController (primaryAccountSuffix cardholderName : string)
  | resolve (value : json)
  | reject (code message : string).

(** The property [completionHandler] of the module. *)
Definition State : Type := option Handler.

(** [canAddPaymentPass:rejector:], given what PassKit answers. *)
Definition canAddPaymentPass (canAdd : bool) : list Effect :=
  [resolve (JBool canAdd)].

(** [startAddPaymentPass:cardHolderName:resolver:rejector:], given what
    PassKit answers and whether there is a presented view controller. *)
Definition startAddPaymentPass (canAdd hasRootViewController : bool)
    (last4 cardHolderName : string) : list Effect :=
  if negb canAdd
  then [reject "payment_pass_unsupported"
          "Unable to add payment pass, please check you have the correct entitlements"]
  else if hasRootViewController
  then [presentViewController last4 cardHolderName; resolve JNull]
  else [reject "root_view_controller_error" "Unable to get the root view controller"].

(** [completeAddPaymentPass:encryptedPassData:ephemeralPublicKey:] *)
Definition completeAddPaymentPass (activation encrypted ephemeral : string)
    (st : State) : State * list Effect :=
  let request :=
    {| activationData := initWithBase64EncodedString activation;
       encryptedPassData := initWithBase64EncodedString encrypted;
       ephemeralPublicKey := initWithBase64EncodedString ephemeral |} in
  match st with
  | Some handler => (st, [callCompletionHandler handler request])
  | None => (st, [])
  end.

(** [addPaymentPassViewController:didFinishAddingPaymentPass:error:],
    given the localized description of the error, if there is one. *)
Definition didFinishAddingPaymentPass (error : option string) (st : State)
    : State * list Effect :=
  (st,
   [dismissViewController;
    sendEventWithName "addPaymentPassViewControllerDidFinish"
      match error with
      | Some localizedDescription => JObj {[ "error" := JStr localizedDescription ]}
      | None => JObj {[ "success" := JBool true ]}
      end]).

(** [addPaymentPassViewController:generateRequestWithCertificateChain:
    nonce:nonceSignature:completionHandler:].  Subscripting the array of
    certificates beyond its bounds raises; the result then holds no
    effects but the name of the exception. *)
Definition generateRequestWithCertificateChain (certificates : list Data)
    (nonce nonceSignature : Data) (handler : Handler) (st : State)
    : State * (list Effect + string) :=
  (Some handler,
   match certificates !! 0, certificates !! 1 with
   | Some leaf, Some subCA =>
       inl [sendEventWithName "getPassAndActivation"
              (JObj {[ "data" :=
                 JObj {[ "certificateLeaf" := JStr (base64EncodedString leaf);
                         "certificateSubCA" := JStr (base64EncodedString subCA);
                         "nonce" := JStr (base64EncodedString nonce);
                         "nonceSignature" := JStr (base64EncodedString nonceSignature) ]} ]})]
   | _, _ => inr "NSRangeException"
   end).

(** What JS and PassKit ask of the module, once the view controller is
    presented. *)
Inductive Input : Type :=
  | CompleteAddPaymentPass (activation encrypted ephemeral : string)
  | DidFinishAddingPaymentPass (error : option string)
  | GenerateRequest (certificates : list Data) (nonce nonceSignature : Data) (handler : Handler).

(** A run of the module; it ends where an exception is raised. *)
Fixpoint steps (inputs : list Input) (st : State) : State * list Effect * option string :=
  match inputs with
  | [] => (st, [], None)
  | i :: inputs' =>
      match i with
      | CompleteAddPaymentPass a e k =>
          let '(st1, effects1) := completeAddPaymentPass a e k st in
          let '(st2, effects2, raised) := steps inputs' st1 in
          (st2, effects1 ++ effects2, raised)
      | DidFinishAddingPaymentPass error =>
          let '(st1, effects1) := didFinishAddingPaymentPass error st in
          let '(st2, effects2, raised) := steps inputs' st1 in
          (st2, effects1 ++ effects2, raised)
      | GenerateRequest certificates nonce nonceSignature handler =>
          match generateRequestWithCertificateChain certificates nonce nonceSignature handler st with
          | (st1, inl effects1) =>
              let '(st2, effects2, raised) := steps inputs' st1 in
              (st2, effects1 ++ effects2, raised)
          | (st1, inr exception) => (st1, [], Some exception)
          end
      end
  end.

(** The names of the events sent, and the handlers called. *)
Definition eventNames (effects : list Effect) : list string :=
  omap (λ e, match e with sendEventWithName name _ => Some name | _ => None end) effects.

Definition handlersCalled (effects : list Effect) : list Handler :=
  omap (λ e, match e with callCompletionHandler h _ => Some h | _ => None end) effects.

(** The handlers that PassKit has handed over. *)
Definition handlersGiven (inputs : list Input) : list Handler :=
  omap (λ i, match i with GenerateRequest _ _ _ h => Some h | _ => None end) inputs.

End wallet.

End RNWallet.

(** ** Reading escaped text back *)

Module Unescape.

(** The rest of [s] after the prefix [p], if [s] starts with [p]. *)
Fixpoint afterPrefix (p s : string) : option string :=
  match p, s with
  | EmptyString, _ => Some s
  | String a p', String b s' => if Ascii.eqb a b then afterPrefix p' s' else None
  | String _ _, EmptyString => None
  end.

(** The characters that [_.escape] replaces, apart from the ampersand. *)
Definition markup : list ascii :=
  ["<"%char; ">"%char; Underscore.quot; "'"%char; "`"%char].

(** The first character of the text that was escaped to [t], and what is
    left of [t]: one step of [_.unescape]. *)
Definition decodeHead (t : string) : option (ascii * string) :=
  match afterPrefix "&amp;" t with
  | Some r => Some ("&"%char, r)
  | None =>
  match afterPrefix "&lt;" t with
  | Some r => Some ("<"%char, r)
  | None =>
  match afterPrefix "&gt;" t with
  | Some r => Some (">"%char, r)
  | None =>
  match afterPrefix "&quot;" t with
  | Some r => Some (Underscore.quot, r)
  | None =>
  match afterPrefix "&#x27;" t with
  | Some r => Some ("'"%char, r)
  | None =>
  match afterPrefix "&#x60;" t with
  | Some r => Some ("`"%char, r)
  | None =>
  match t with
  | String c r => Some (c, r)
  | EmptyString => None
  end end end end end end end.

End Unescape.

(** ** More concrete inputs *)

Module Scenario.

(** A mutation whose three patch sets write three different keys. *)
Definition threeKeys : API.OnyxData :=
  API.mkData [Onyx.mkUpdate Onyx.MERGE "optimistic" (JBool true)]
    [Onyx.mkUpdate Onyx.MERGE "success" (JBool true)]
    [Onyx.mkUpdate Onyx.MERGE "failure" (JBool true)].

(** Two ways to name temporary transactions: by the transaction copied,
    the same at every call; and by the number of the call as well. *)
Definition sameID (n : nat) (t : EditRequestDistancePage.Transaction) : string :=
  (EditRequestDistancePage.transactionID t ++ "-temporary")%string.

Definition newID (n : nat) (t : EditRequestDistancePage.Transaction) : string :=
  (EditRequestDistancePage.transactionID t ++ "-temporary-" ++ pretty n)%string.

(** A transaction from [Home] to [Office], alone in the store. *)
Definition t1 : EditRequestDistancePage.Transaction :=
  EditRequestDistancePage.mkTransaction "t1" (JArr [JStr "Home"; JStr "Office"]).

Definition t1Stored : EditRequestDistancePage.State :=
  EditRequestDistancePage.mkState {[ "t1" := t1 ]} [] 0.

(** A stand-in for [EmojiUtils.replaceEmojis] that knows one emoticon and
    puts one character in its place. *)
Definition replaceEmojis (newDraftInput : string) (skinTone : unit)
    : ReportActionItemMessageEdit.ReplacedEmojis unit :=
  if String.eqb newDraftInput "Hi :) there"
  then ReportActionItemMessageEdit.mkReplaced (Some "Hi * there") (Some [tt])
  else ReportActionItemMessageEdit.mkReplaced (Some newDraftInput) None.


(** A comment with markup. *)
Definition formatted : ReportActionItemMessageEdit.Action :=
  ReportActionItemMessageEdit.mkAction "1002" "<strong>Hi</strong>".

(** Stand-ins for the two converters: the text as it is. *)
Definition htmlToMarkdown (html : string) : string := html.

Definition htmlDecode (html : string) : string := html.

(** A policy with a Xero connection that imports tax rates. *)
Definition connected : WorkspaceMoreFeaturesPage.Policy :=
  {| WorkspaceMoreFeaturesPage.id := "7A";
     WorkspaceMoreFeaturesPage.areDistanceRatesEnabled := Some true;
     WorkspaceMoreFeaturesPage.areWorkflowsEnabled := None;
     WorkspaceMoreFeaturesPage.areCategoriesEnabled := Some true;
     WorkspaceMoreFeaturesPage.areTagsEnabled := Some false;
     WorkspaceMoreFeaturesPage.areConnectionsEnabled := Some true;
     WorkspaceMoreFeaturesPage.tax := None;
     WorkspaceMoreFeaturesPage.connections :=
       Some {[ "xero" := WorkspaceMoreFeaturesPage.mkConnection
                           (WorkspaceMoreFeaturesPage.mkConfig None (Some true)) ]};
     WorkspaceMoreFeaturesPage.pendingFields := None |}.

Definition isEmptyObject (obj : option (gmap string WorkspaceMoreFeaturesPage.Connection))
    : bool :=
  match obj with
  | Some m => bool_decide (map_to_list m = [])
  | None => true
  end.

Definition getLatestErrorField (policy : option WorkspaceMoreFeaturesPage.Policy)
    (fieldName : string) : gmap string string := ∅.

Definition getRoute (policyID : string) : string :=
  ("settings/workspaces/" ++ policyID ++ "/accounting")%string.

Definition items : list (WorkspaceMoreFeaturesPage.Item (gmap string string)) :=
  WorkspaceMoreFeaturesPage.renderedItems (gmap string string) isEmptyObject
    getLatestErrorField "areConnectionsEnabled" true (Some connected).

(** The tags item of the connected policy. *)
Definition tagsItem : WorkspaceMoreFeaturesPage.Item (gmap string string) :=
  nth 3 items
    (WorkspaceMoreFeaturesPage.mkItem WorkspaceMoreFeaturesPage.Tag EmptyString EmptyString
       false None (λ _ st, (st, [])) None None None).

Definition modalsClosed : WorkspaceMoreFeaturesPage.State :=
  WorkspaceMoreFeaturesPage.mkState false false.

(** A map view just mounted, with no waypoints and no cached location,
    and what happens to it: the position is found, the map is loaded, the
    user drags it, the position is found again. *)
Definition mapMounted : MapView.State Z :=
  MapView.mkState Z None false true false.

Definition mapInitialState : MapView.InitialState Z :=
  MapView.mkInitialState Z (0, 0)%Z 10%Z.

Definition mapInputs : list (MapView.Input Z) :=
  [MapView.Focus Z false; MapView.PositionFound Z (MapView.mkPosition Z 13%Z 52%Z);
   MapView.MapLoaded Z; MapView.Drag Z; MapView.PositionFound Z (MapView.mkPosition Z 14%Z 52%Z)].

(** The wallet module with strings for data and numbers for handlers:
    PassKit asks for a request twice. *)
Definition walletInputs : list (RNWallet.Input string nat) :=
  [RNWallet.GenerateRequest string nat ["leaf"; "subCA"] "nonce" "signature" 1;
   RNWallet.DidFinishAddingPaymentPass string nat None;
   RNWallet.GenerateRequest string nat ["leaf"; "subCA"] "nonce" "signature" 2].

Definition walletSteps :=
  RNWallet.steps string nat (λ data, data) Some.

End Scenario.

(** * Part II: theorems *)

(** ** JSON values and deep merge *)

Section json_lemmas.

Lemma json_size_lookup (m : gmap string json) k y :
  m !! k = Some y → json_size y < json_size (JObj m).
Proof.
  intros Hk. simpl.
  rewrite <- (insert_delete_id m k y Hk).
  rewrite map_fold_insert_L.
  - lia.
  - intros; lia.
  - apply lookup_delete_eq.
Qed.

Lemma json_size_elem (l : list json) y :
  y ∈ l → json_size y < json_size (JArr l).
Proof.
  simpl. induction 1; simpl; lia.
Qed.

(** Induction over JSON values, with the hypothesis for every member of
    an array and every property of an object. *)
Lemma json_nested_ind (P : json → Prop) :
  P JNull → (∀ b, P (JBool b)) → (∀ n, P (JNum n)) → (∀ s, P (JStr s)) →
  (∀ l, Forall P l → P (JArr l)) →
  (∀ m, map_Forall (λ _, P) m → P (JObj m)) →
  ∀ v, P v.
Proof.
  intros Hnull Hbool Hnum Hstr Harr Hobj v.
  remember (json_size v) as n eqn:Hn. revert v Hn.
  induction (lt_wf n) as [n _ IH]. intros v ->.
  destruct v as [| | | |l|m]; auto.
  - apply Harr, Forall_forall. intros y Hy.
    eapply IH; [|reflexivity]. by apply json_size_elem.
  - apply Hobj. intros k y Hk.
    eapply IH; [|reflexivity]. by eapply json_size_lookup.
Qed.

Lemma deep_merge_obj vm pm :
  Onyx.deep_merge (JObj vm) (JObj pm)
  = JObj (union_with (λ x y, Some (Onyx.deep_merge x y)) vm pm).
Proof. reflexivity. Qed.

Lemma deep_merge_scalar v p :
  (∀ pm, p ≠ JObj pm) → Onyx.deep_merge v p = p.
Proof. intros Hp. destruct v, p; try reflexivity. by destruct (Hp m0). Qed.

Lemma deep_merge_self p : Onyx.deep_merge p p = p.
Proof.
  induction p as [| | | | |m IH] using json_nested_ind; try reflexivity.
  rewrite deep_merge_obj. f_equal. apply map_eq. intros k.
  rewrite lookup_union_with.
  destruct (m !! k) as [y|] eqn:Hk; simpl; [|done].
  f_equal. by eapply IH.
Qed.

(** A single deep merge is idempotent on every existing value. *)
Lemma deep_merge_idem p :
  ∀ v, Onyx.deep_merge (Onyx.deep_merge v p) p = Onyx.deep_merge v p.
Proof.
  induction p as [| | | | |pm IH] using json_nested_ind; intros v;
    try (by rewrite !deep_merge_scalar).
  destruct v as [| | | | |vm]; try exact (deep_merge_self (JObj pm)).
  rewrite !deep_merge_obj. f_equal. apply map_eq. intros k.
  rewrite !lookup_union_with.
  destruct (vm !! k) as [x|] eqn:Hv, (pm !! k) as [y|] eqn:Hp; simpl; try done.
  - f_equal. by eapply IH.
  - f_equal. apply deep_merge_self.
Qed.

(** The round trip of section 8: [merge(key, {a:1})], then
    [merge(key, {b:2})], then [get(key)] gives [{a:1, b:2}]. *)
Example merge_round_trip :
  Onyx.merge "k" (JObj {[ "b" := JNum 2 ]}) (Onyx.merge "k" (JObj {[ "a" := JNum 1 ]}) ∅) !! "k"
  = Some (JObj {[ "a" := JNum 1; "b" := JNum 2 ]}).
Proof. vm_compute. reflexivity. Qed.

End json_lemmas.

(** ** Replaying a batch *)

Section replay.

Import Replay.

Lemma update_lookup us :
  ∀ s k, Onyx.update us s !! k = run (ops_at k us) (s !! k).
Proof.
  induction us as [|u us IH]; intros s k; [done|].
  unfold Onyx.update in *. simpl. rewrite IH. unfold Onyx.apply_update.
  destruct (decide (Onyx.key u = k)) as [->|Hne]; simpl.
  - by rewrite lookup_insert_eq.
  - by rewrite lookup_insert_ne.
Qed.

Lemma run_cons op l o :
  run (op :: l) o = run l (Some (Onyx.write_value op.1 op.2 o)).
Proof. reflexivity. Qed.

Lemma run_app l1 l2 o : run (l1 ++ l2) o = run l2 (run l1 o).
Proof. apply foldl_app. Qed.

Lemma write_absolute op o :
  absolute op = true → Onyx.write_value op.1 op.2 o = op.2.
Proof.
  destruct op as [[] p]; simpl; [|done].
  destruct o as [v|]; [|done].
  destruct p; try done; intros _; by destruct v.
Qed.

(** Past an absolute operation, the value found at the start is
    forgotten. *)
Lemma run_absolute ops :
  Exists (λ op, absolute op = true) ops → ∀ o o', run ops o = run ops o'.
Proof.
  induction 1 as [op ops Hop|op ops _ IH]; intros o o'; simpl.
  - by rewrite !(write_absolute op) by done.
  - apply IH.
Qed.

Lemma ops_all_objects ops :
  Forall (λ op, absolute op ≠ true) ops → ∃ pms, ops = obj_merge <$> pms.
Proof.
  induction 1 as [|[m p] ops Hop _ [pms ->]]; [by exists []|].
  destruct m; [|done]. destruct p as [| | | | |pm]; try done.
  by exists (pm :: pms).
Qed.

Lemma ops_below_size_le k pms :
  ops_size (ops_below k pms) <= ops_size (obj_merge <$> pms).
Proof.
  induction pms as [|pm l IH]; simpl; [lia|].
  destruct (pm !! k) as [y|] eqn:Hk; simpl.
  - pose proof (json_size_lookup _ _ _ Hk). simpl in *. unfold fmap in *. lia.
  - unfold fmap in *. lia.
Qed.

Lemma ops_below_size k pms :
  pms ≠ [] → ops_size (ops_below k pms) < ops_size (obj_merge <$> pms).
Proof.
  destruct pms as [|pm l]; [done|intros _]. simpl.
  pose proof (ops_below_size_le k l) as Hle.
  destruct (pm !! k) as [y|] eqn:Hk; simpl.
  - pose proof (json_size_lookup _ _ _ Hk). simpl in *. unfold fmap in *. lia.
  - unfold fmap in *. lia.
Qed.

(** A non-empty run of object merges yields an object, and does so
    property by property. *)
Lemma run_objects pms :
  pms ≠ [] → ∀ o, ∃ M, run (obj_merge <$> pms) o = Some (JObj M)
                   ∧ ∀ k, M !! k = run (ops_below k pms) (prop k o).
Proof.
  induction pms as [|pm pms IH]; [done|intros _ o].
  assert (Hfirst : ∃ M0, Onyx.write_value Onyx.MERGE (JObj pm) o = JObj M0
                    ∧ ∀ k, M0 !! k = run (ops_below k [pm]) (prop k o)).
  { destruct o as [v|]; simpl.
    - destruct v as [| | | | |vm];
        try (exists pm; split; [done|]; intros k; simpl;
             by destruct (pm !! k)).
      eexists; split; [done|]. intros k. rewrite lookup_union_with.
      unfold ops_below; simpl.
      by destruct (vm !! k), (pm !! k).
    - exists pm. split; [done|]. intros k. unfold ops_below; simpl.
      by destruct (pm !! k). }
  destruct Hfirst as (M0 & HM0 & Hlk0). rewrite fmap_cons, run_cons.
  change (Onyx.write_value _ _ o) with (Onyx.write_value Onyx.MERGE (JObj pm) o).
  rewrite HM0.
  destruct pms as [|pm' pms'].
  - exists M0. split; [done|]. intros k. by rewrite Hlk0.
  - destruct (IH ltac:(done) (Some (JObj M0))) as (M & HM & Hlk).
    exists M. split; [done|]. intros k. rewrite Hlk. simpl prop. rewrite Hlk0.
    rewrite <- run_app. f_equal. unfold ops_below. simpl. by destruct (pm !! k).
Qed.

(** Replaying the operations addressed to one key changes nothing. *)
Lemma run_idem ops : ∀ o, run ops (run ops o) = run ops o.
Proof.
  remember (ops_size ops) as n eqn:Hn. revert ops Hn.
  induction (lt_wf n) as [n _ IH]. intros ops -> o.
  destruct (decide (Exists (λ op, absolute op = true) ops)) as [Habs|Hobj].
  { by apply run_absolute. }
  apply not_Exists_Forall in Hobj; [|intros op; apply _].
  destruct (ops_all_objects ops Hobj) as [pms ->].
  destruct pms as [|pm pms]; [done|].
  destruct (run_objects (pm :: pms) ltac:(done) o) as (M & HM & Hlk).
  destruct (run_objects (pm :: pms) ltac:(done) (Some (JObj M))) as (M' & HM' & Hlk').
  rewrite HM, HM'. do 2 f_equal. apply map_eq. intros k.
  rewrite Hlk'. simpl prop. rewrite Hlk.
  eapply IH; [|reflexivity]. by apply ops_below_size.
Qed.

(** Replaying a whole batch on the store changes nothing. *)
Lemma update_idem us s : Onyx.update us (Onyx.update us s) = Onyx.update us s.
Proof.
  apply map_eq. intros k. rewrite !update_lookup. apply run_idem.
Qed.

End replay.

(** ** The mutation dispatcher *)

Section dispatcher.

Lemma wf_init s : API.wf (API.init s).
Proof. split; constructor. Qed.

Lemma wf_write name ps od d : API.wf d → API.wf (API.write name ps od d).
Proof.
  intros [Hlog Hq]. split; simpl.
  - apply Forall_app. split.
    + eapply Forall_impl; [exact Hlog|]. simpl. intros; lia.
    + repeat constructor.
  - apply Forall_app. split.
    + eapply Forall_impl; [exact Hq|]. simpl. intros; lia.
    + repeat constructor.
Qed.

Lemma wf_resolve sig d : API.wf d → API.wf (API.resolve sig d).
Proof.
  intros Hwf. pose proof Hwf as [Hlog Hq]. unfold API.resolve.
  destruct (API.queue d) as [|[id r] q] eqn:Hqueue; [done|].
  apply Forall_cons in Hq as [Hid Hq]. split; simpl; [|done].
  apply Forall_app. split; [done|]. repeat constructor; simpl in *; lia.
Qed.

Lemma own_app id l1 l2 : API.own id (l1 ++ l2) = API.own id l1 ++ API.own id l2.
Proof. apply filter_app. Qed.

Lemma own_older id l : Forall (λ e, API.event_id e < id) l → API.own id l = [].
Proof.
  induction 1 as [|e l He _ IH]; [done|].
  unfold API.own in *. rewrite filter_cons_False; [done|lia].
Qed.

(** Serving [length q] requests of a queue [q ++ rest] leaves [rest] and
    logs events of the requests of [q] only. *)
Lemma drain_prefix sigs :
  ∀ d q rest, API.queue d = q ++ rest → length sigs = length q →
    ∃ evs, API.log (API.drain sigs d) = API.log d ++ evs
           ∧ Forall (λ e, ∃ x, x ∈ q ∧ API.event_id e = x.1) evs
           ∧ API.queue (API.drain sigs d) = rest
           ∧ API.issued (API.drain sigs d) = API.issued d.
Proof.
  induction sigs as [|sig sigs IH]; intros d q rest Hq Hlen.
  - destruct q; [|done]. exists []. by rewrite app_nil_r.
  - destruct q as [|[id r] q]; [done|]. simpl in *.
    destruct (IH (API.resolve sig d) q rest) as (evs & Hlog & Hevs & Hrest & Hiss).
    { unfold API.resolve. by rewrite Hq. }
    { lia. }
    exists ([API.Sent id; API.Applied id (API.outcome sig)] ++ evs).
    unfold API.drain in *. simpl. rewrite Hlog, Hrest, Hiss.
    unfold API.resolve. rewrite Hq. simpl. rewrite <- app_assoc.
    split_and!; try done.
    repeat constructor; try (exists (id, r); split; [left|done]).
    eapply Forall_impl; [exact Hevs|]. simpl. intros e (x & Hx & He).
    exists x. split; [by right|done].
Qed.

Lemma drain_empty sigs d : API.queue d = [] → API.drain sigs d = d.
Proof.
  intros Hq. induction sigs as [|sig sigs IH]; [done|].
  unfold API.drain in *. simpl. unfold API.resolve at 2. by rewrite Hq.
Qed.

(** The store after the first requests of the queue are resolved: each
    of them has had its [successData] or its [failureData] applied, by its
    signal, in the order of the queue, and nothing else was applied. *)
Lemma drain_store sigs :
  ∀ d q rest, API.queue d = q ++ rest → length sigs = length q →
    API.store (API.drain sigs d)
    = foldl (λ s (x : API.Signal * (nat * API.Request)),
               Onyx.update
                 match x.1 with
                 | API.Acknowledged => API.successData (API.data x.2.2)
                 | _ => API.failureData (API.data x.2.2)
                 end s)
        (API.store d) (zip sigs q).
Proof.
  induction sigs as [|sig sigs IH]; intros d q rest Hq Hlen.
  - by destruct q.
  - destruct q as [|[id r] q]; [done|]. simpl in Hlen.
    change (API.drain (sig :: sigs) d) with (API.drain sigs (API.resolve sig d)).
    assert (Hres : API.resolve sig d
      = {| API.store := Onyx.update (API.patches (API.outcome sig) r) (API.store d);
           API.queue := q ++ rest;
           API.log := API.log d ++ [API.Sent id; API.Applied id (API.outcome sig)];
           API.issued := API.issued d |}).
    { unfold API.resolve. by rewrite Hq. }
    rewrite (IH (API.resolve sig d) q rest); [|by rewrite Hres|lia].
    rewrite Hres. cbn [API.store zip zip_with foldl fst snd]. by destruct sig.
Qed.

(** C1.  A mutation dispatched with [write] has its optimistic patches
    applied to the store by [write] itself, while the request is only
    queued and hence before anything is sent.  As long as the queue has
    not reached it the store changes by the patches of the requests
    written earlier only: neither its [successData] nor its [failureData]
    is applied.  When the queue resolves it, the store becomes the store
    of that moment with its [successData] applied, on an acknowledgement,
    or with its [failureData] applied, on a wrong status code or a network
    failure: one of the two and not the other; after that nothing more
    happens.  The log tells the same, in order. *)
Theorem write_applies_optimistic_once_then_exactly_one
    (name : string) (ps : gmap string json) (od : API.OnyxData)
    (d : API.Dispatcher) (sigs : list API.Signal) (sig : API.Signal) :
  API.wf d → length sigs = length (API.queue d) →
  let id := API.issued d in
  let r := API.mkRequest name ps od in
  let written := API.write name ps od d in
  let waiting := API.drain sigs written in
  let settled := API.resolve sig waiting in
  (API.store written = Onyx.update (API.optimisticData od) (API.store d)
   ∧ API.queue written = API.queue d ++ [(id, r)]
   ∧ API.own id (API.log written) = [API.Applied id API.Optimistic])
  ∧ (API.store waiting
     = foldl (λ s (x : API.Signal * (nat * API.Request)),
                Onyx.update
                  match x.1 with
                  | API.Acknowledged => API.successData (API.data x.2.2)
                  | _ => API.failureData (API.data x.2.2)
                  end s)
         (API.store written) (zip sigs (API.queue d))
     ∧ API.queue waiting = [(id, r)]
     ∧ API.own id (API.log waiting) = [API.Applied id API.Optimistic])
  ∧ (API.store settled
     = Onyx.update
         match sig with
         | API.Acknowledged => API.successData od
         | API.WrongStatus _ | API.NetworkFailure => API.failureData od
         end (API.store waiting)
     ∧ API.queue settled = []
     ∧ API.own id (API.log settled)
       = [API.Applied id API.Optimistic; API.Sent id; API.Applied id (API.outcome sig)]
     ∧ (API.outcome sig = API.OnSuccess ∨ API.outcome sig = API.OnFailure))
  ∧ ∀ sigs', API.drain sigs' settled = settled.
Proof.
  intros [Hlog Hq] Hlen id r written waiting settled.
  assert (Hold : API.own id (API.log d) = []) by by apply own_older.
  destruct (drain_prefix sigs written (API.queue d) [(id, r)]) as (evs & Hevs & Hids & Hrest & _);
    [done|done|].
  assert (Hnone : API.own id evs = []).
  { apply own_older. eapply Forall_impl; [exact Hids|]. simpl.
    intros e (x & Hx & ->). by eapply Forall_forall in Hq. }
  fold waiting in Hevs, Hrest.
  assert (Hsettled : settled =
    {| API.store := Onyx.update (API.patches (API.outcome sig) r) (API.store waiting);
       API.queue := [];
       API.log := API.log waiting ++ [API.Sent id; API.Applied id (API.outcome sig)];
       API.issued := API.issued waiting |}).
  { unfold settled, API.resolve. by rewrite Hrest. }
  assert (Hfirst : API.own id (API.log written) = [API.Applied id API.Optimistic]).
  { simpl. rewrite own_app, Hold. unfold API.own.
    rewrite filter_cons_True by done. done. }
  split_and!.
  - done.
  - done.
  - done.
  - by apply (drain_store sigs written (API.queue d) [(id, r)]).
  - done.
  - by rewrite Hevs, own_app, Hfirst, Hnone.
  - rewrite Hsettled. by destruct sig.
  - by rewrite Hsettled.
  - rewrite Hsettled. simpl. rewrite Hevs, !own_app, Hfirst, Hnone. simpl.
    unfold API.own. by rewrite !filter_cons_True by done.
  - destruct sig; auto.
  - intros sigs'. apply drain_empty. by rewrite Hsettled.
Qed.

Lemma write_applies_optimistic_once_then_exactly_one_witness :
  API.wf (API.init ∅)
  ∧ length ([] : list API.Signal) = length (API.queue (API.init ∅))
  ∧ API.store (API.resolve API.NetworkFailure
                 (Card.reportVirtualExpensifyCardFraud 7 (API.init ∅)))
    = Onyx.update (API.failureData Card.reportVirtualExpensifyCardFraudData)
        (Onyx.update (API.optimisticData Card.reportVirtualExpensifyCardFraudData) ∅)
  ∧ API.store (API.resolve API.Acknowledged
                 (API.write "Sample" ∅ Scenario.threeKeys (API.init ∅)))
    = Onyx.update (API.successData Scenario.threeKeys)
        (Onyx.update (API.optimisticData Scenario.threeKeys) ∅)
  ∧ API.store (API.resolve (API.WrongStatus 500)
                 (API.write "Sample" ∅ Scenario.threeKeys (API.init ∅)))
    = Onyx.update (API.failureData Scenario.threeKeys)
        (Onyx.update (API.optimisticData Scenario.threeKeys) ∅).
Proof.
  split; [apply wf_init|]. split; [reflexivity|].
  split_and!.
  - exact (proj1 (proj1 (proj2 (proj2
      (write_applies_optimistic_once_then_exactly_one
         "ReportVirtualExpensifyCardFraud" {[ "cardID" := JNum 7 ]}
         Card.reportVirtualExpensifyCardFraudData (API.init ∅) [] API.NetworkFailure
         (wf_init ∅) eq_refl))))).
  - exact (proj1 (proj1 (proj2 (proj2
      (write_applies_optimistic_once_then_exactly_one
         "Sample" ∅ Scenario.threeKeys (API.init ∅) [] API.Acknowledged
         (wf_init ∅) eq_refl))))).
  - exact (proj1 (proj1 (proj2 (proj2
      (write_applies_optimistic_once_then_exactly_one
         "Sample" ∅ Scenario.threeKeys (API.init ∅) [] (API.WrongStatus 500)
         (wf_init ∅) eq_refl))))).
Defined.

(** On a mutation whose three patch sets write three different keys the
    two outcomes are told apart in the store: after an acknowledgement the
    key of [successData] is written and the key of [failureData] is not,
    after a failure it is the other way round, and the key of
    [optimisticData] is written in both. *)
Example three_keys_one_outcome :
  let run sig := API.store (API.resolve sig (API.write "Sample" ∅ Scenario.threeKeys (API.init ∅))) in
  run API.Acknowledged = {[ "optimistic" := JBool true; "success" := JBool true ]}
  ∧ run API.NetworkFailure = {[ "optimistic" := JBool true; "failure" := JBool true ]}
  ∧ run (API.WrongStatus 500) = {[ "optimistic" := JBool true; "failure" := JBool true ]}.
Proof.
  cbv zeta. split_and!; vm_compute; reflexivity.
Qed.

End dispatcher.

(** ** Card actions *)

Section card_actions.

(** C2.  Applying the optimistic patch set of a mutation twice in sequence
    to any store state gives the same store state as applying it once:
    under the merge and set semantics of section 4.1, this holds of every
    patch sequence, whatever keys, methods and values it has. *)
Theorem optimisticData_replay_idempotent (r : API.Request) (s : gmap string json) :
  Onyx.update (API.patches API.Optimistic r)
    (Onyx.update (API.patches API.Optimistic r) s)
  = Onyx.update (API.patches API.Optimistic r) s.
Proof.
  apply map_eq. intros k. rewrite !update_lookup. apply run_idem.
Qed.

(** The dispatcher view: writing the mutations of [Card.ts] a second time
    leaves the store as the first write left it. *)
Lemma activatePhysicalExpensifyCard_replay digits cardID d :
  API.store (Card.activatePhysicalExpensifyCard digits cardID
               (Card.activatePhysicalExpensifyCard digits cardID d))
  = API.store (Card.activatePhysicalExpensifyCard digits cardID d).
Proof. apply update_idem. Qed.

Lemma requestReplacementExpensifyCard_replay cardId reason d :
  API.store (Card.requestReplacementExpensifyCard cardId reason
               (Card.requestReplacementExpensifyCard cardId reason d))
  = API.store (Card.requestReplacementExpensifyCard cardId reason d).
Proof. apply update_idem. Qed.

Lemma reportVirtualExpensifyCardFraud_replay cardID d :
  API.store (Card.reportVirtualExpensifyCardFraud cardID
               (Card.reportVirtualExpensifyCardFraud cardID d))
  = API.store (Card.reportVirtualExpensifyCardFraud cardID d).
Proof. apply update_idem. Qed.

(** A store in which card 7 is listed with a state and an error. *)
Example activatePhysicalExpensifyCard_on_listed_card :
  let s : gmap string json :=
    {[ ONYXKEYS.CARD_LIST :=
         JObj {[ "7" := JObj {[ "state" := JNum 3; "errors" := JStr "declined" ]} ]} ]} in
  API.store (Card.activatePhysicalExpensifyCard "1234" 7 (API.init s)) !! ONYXKEYS.CARD_LIST
  = Some (JObj {[ "7" := JObj {[ "state" := JNum 3; "errors" := JNull;
                                 "isLoading" := JBool true ]} ]}).
Proof. vm_compute. reflexivity. Qed.

(** A merge of an object sets each of its scalar properties. *)
Lemma merge_sets_scalar (pm : gmap string json) k y o :
  pm !! k = Some y → (∀ m, y ≠ JObj m) →
  prop k (Some (Onyx.write_value Onyx.MERGE (JObj pm) o)) = Some y.
Proof.
  intros Hk Hy. destruct o as [[| | | | |vm]|]; simpl; try done.
  rewrite lookup_union_with, Hk.
  destruct (vm !! k) as [x|]; simpl; [|done].
  by rewrite deep_merge_scalar.
Qed.

(** C4, as the code has it.  When [requestReplacementExpensifyCard] is
    dispatched and the request fails (network failure or wrong status
    code), the failure patch leaves the entry at the key
    [FORMS.REPORT_PHYSICAL_CARD_FORM] with [isLoading: false]; the entry at
    [CARD_LIST], and with it the status of every card, is what it was
    before the call.  The patch is applied in the very step that handles
    the failure signal. *)
Theorem requestReplacementExpensifyCard_failure
    (cardId : Z) (reason : string) (s : gmap string json) (sig : API.Signal) :
  API.outcome sig = API.OnFailure →
  let d := API.resolve sig (Card.requestReplacementExpensifyCard cardId reason (API.init s)) in
  prop "isLoading" (API.store d !! ONYXKEYS.FORMS.REPORT_PHYSICAL_CARD_FORM) = Some (JBool false)
  ∧ API.store d !! ONYXKEYS.CARD_LIST = s !! ONYXKEYS.CARD_LIST
  ∧ API.log d = [API.Applied 0 API.Optimistic; API.Sent 0; API.Applied 0 API.OnFailure].
Proof.
  intros Hsig d. subst d. unfold API.resolve. simpl. rewrite Hsig. simpl.
  unfold Onyx.update, Onyx.apply_update. simpl.
  split_and!; [|by rewrite !lookup_insert_ne by done|done].
  rewrite !lookup_insert_eq.
  refine (merge_sets_scalar {[ "isLoading" := JBool false ]} "isLoading"
            (JBool false) (Some _) _ _); done.
Qed.

Lemma requestReplacementExpensifyCard_failure_witness :
  API.outcome API.NetworkFailure = API.OnFailure
  ∧ prop "isLoading"
      (API.store (API.resolve API.NetworkFailure
                    (Card.requestReplacementExpensifyCard 7 "stolen" (API.init ∅)))
       !! ONYXKEYS.FORMS.REPORT_PHYSICAL_CARD_FORM)
    = Some (JBool false).
Proof.
  split; [reflexivity|].
  exact (proj1 (requestReplacementExpensifyCard_failure 7 "stolen" ∅ API.NetworkFailure eq_refl)).
Defined.

(** C4, as stated, fails.  With card 7 listed under [CARD_LIST], after
    [write('RequestReplacementExpensifyCard', {cardId: 7, reason:
    'stolen'}, ...)] and a network failure, the entry at [CARD_LIST] shows
    no [isLoading: false], neither for the card nor for the list: the
    patches of this mutation address the form key. *)
Lemma requestReplacementExpensifyCard_failure_not_at_CARD_LIST :
  let s : gmap string json :=
    {[ ONYXKEYS.CARD_LIST := JObj {[ "7" := JObj {[ "state" := JNum 3 ]} ]} ]} in
  let d := API.resolve API.NetworkFailure
             (Card.requestReplacementExpensifyCard 7 "stolen" (API.init s)) in
  ¬ (prop "isLoading" (prop "7" (API.store d !! ONYXKEYS.CARD_LIST)) = Some (JBool false)
     ∨ prop "isLoading" (API.store d !! ONYXKEYS.CARD_LIST) = Some (JBool false)).
Proof.
  vm_compute. intros [H|H]; discriminate H.
Qed.

End card_actions.

Section reveal.

Variable JSON_CODE_SUCCESS : Z.
Variable translateLocal : string → string.
Variable E : Type.
Variable makeRequestWithSideEffects : string → gmap string json → Settled (option json) E.

Lemma jsonCodeIsNotSuccess_false response :
  Card.jsonCodeIsNotSuccess JSON_CODE_SUCCESS response = false
  ↔ prop "jsonCode" response = Some (JNum JSON_CODE_SUCCESS).
Proof.
  unfold Card.jsonCodeIsNotSuccess.
  destruct (prop "jsonCode" response) as [[| |n| | |]|]; try (split; [done|congruence]).
  rewrite negb_false_iff, Z.eqb_eq. split; congruence.
Qed.

(** C10.  [revealVirtualCardDetails(cardID)] resolves with the response
    exactly when the request succeeds with a response whose [jsonCode] is
    the success code; for every other response, and for every transport
    error, it rejects with the localized
    [cardPage.cardDetailsLoadingFailure] message.  Whatever the outcome,
    it leaves the local store as it found it. *)
Theorem revealVirtualCardDetails_resolves_iff_success
    (cardID : Z) (s : gmap string json) :
  let settled :=
    makeRequestWithSideEffects "RevealExpensifyCardDetails" {[ "cardID" := JNum cardID ]} in
  let result :=
    Card.revealVirtualCardDetails JSON_CODE_SUCCESS translateLocal E
      makeRequestWithSideEffects cardID s in
  (∀ response,
     result.2 = Resolved response
     ↔ settled = Resolved response
       ∧ prop "jsonCode" response = Some (JNum JSON_CODE_SUCCESS))
  ∧ ((∀ response, settled = Resolved response →
        prop "jsonCode" response ≠ Some (JNum JSON_CODE_SUCCESS)) →
     result.2 = Rejected (translateLocal "cardPage.cardDetailsLoadingFailure"))
  ∧ (∀ e, settled = Rejected e →
     result.2 = Rejected (translateLocal "cardPage.cardDetailsLoadingFailure"))
  ∧ result.1 = s.
Proof.
  intros settled result. subst result. unfold Card.revealVirtualCardDetails.
  fold settled. destruct settled as [response|e].
  - destruct (Card.jsonCodeIsNotSuccess JSON_CODE_SUCCESS response) eqn:Hcode; simpl.
    + assert (Hne : prop "jsonCode" response ≠ Some (JNum JSON_CODE_SUCCESS)).
      { intros Heq. apply jsonCodeIsNotSuccess_false in Heq. congruence. }
      split_and!; try done.
      intros r. split; [done|]. intros [[= ->] Hr]. done.
    + apply jsonCodeIsNotSuccess_false in Hcode.
      split_and!; try done.
      * intros r. split; [intros [= ->]; done|]. by intros [[= ->] _].
      * intros Hall. by destruct (Hall response).
  - simpl. split_and!; try done.
    intros r. split; [done|]. by intros [? _].
Qed.

End reveal.

Section reveal_runs.

(** The server answers with the card details and code 200. *)
Example revealVirtualCardDetails_success :
  let response := Some (JObj {[ "jsonCode" := JNum 200; "pan" := JStr "4111" ]}) in
  (Card.revealVirtualCardDetails 200 (λ phrase, phrase) unit
     (λ _ _, Resolved response) 7 ∅).2
  = Resolved response.
Proof. vm_compute. reflexivity. Qed.

(** A code that is the string [200] is not the number 200. *)
Example revealVirtualCardDetails_string_code :
  (Card.revealVirtualCardDetails 200 (λ phrase, phrase) unit
     (λ _ _, Resolved (Some (JObj {[ "jsonCode" := JStr "200" ]}))) 7 ∅).2
  = Rejected "cardPage.cardDetailsLoadingFailure".
Proof. vm_compute. reflexivity. Qed.

Example revealVirtualCardDetails_undefined_response :
  (Card.revealVirtualCardDetails 200 (λ phrase, phrase) unit
     (λ _ _, Resolved None) 7 ∅).2
  = Rejected "cardPage.cardDetailsLoadingFailure".
Proof. reflexivity. Qed.

Example revealVirtualCardDetails_transport_error :
  (Card.revealVirtualCardDetails 200 (λ phrase, phrase) unit
     (λ _ _, Rejected tt) 7 ∅).2
  = Rejected "cardPage.cardDetailsLoadingFailure".
Proof. reflexivity. Qed.

End reveal_runs.

(** ** JS strings *)

Section js_strings.

Lemma trim_empty : JS.trim EmptyString = EmptyString.
Proof. reflexivity. Qed.

Lemma length_zero_empty s : JS.length s = 0%Z ↔ s = EmptyString.
Proof.
  unfold JS.length. destruct s; simpl; [done|]. split; [lia|done].
Qed.

Lemma escapeChar_not_empty c : Underscore.escapeChar c ≠ EmptyString.
Proof.
  destruct c as [[] [] [] [] [] [] [] []]; vm_compute; discriminate.
Qed.

Lemma escape_not_empty s : s ≠ EmptyString → Underscore.escape s ≠ EmptyString.
Proof.
  destruct s as [|c s]; [done|intros _]. simpl.
  pose proof (escapeChar_not_empty c).
  by destruct (Underscore.escapeChar c).
Qed.

Example escape_markup :
  Underscore.escape "a<b & c" = "a&lt;b &amp; c".
Proof. reflexivity. Qed.

Example trim_blank :
  JS.trim (String (ascii_of_nat 10) (String (ascii_of_nat 32) (String (ascii_of_nat 9) EmptyString)))
  = EmptyString.
Proof. reflexivity. Qed.

Example trim_inner : JS.trim "  a b  " = "a b".
Proof. reflexivity. Qed.

End js_strings.

(** ** The message edit composer *)

Section message_edit.

Import ReportActionItemMessageEdit.

Context {Emoji SkinTone : Type}.
Variable replaceEmojis : string → SkinTone → ReplacedEmojis Emoji.
Variable getFrequentlyUsedEmojis : list Emoji → list Emoji.
Variable getCommentLength : string → nat.
Variable MAX_COMMENT_LENGTH : nat.
Variable reportID : string.
Variable action : Action.
Variable report : Report.
Variable index : Z.
Variable preferredSkinTone : SkinTone.

#[local] Abbreviation updateDraft :=
  (updateDraft Emoji SkinTone replaceEmojis getFrequentlyUsedEmojis action preferredSkinTone).
#[local] Abbreviation deleteDraft := (deleteDraft Emoji reportID action index).
#[local] Abbreviation publishDraft :=
  (publishDraft Emoji getCommentLength MAX_COMMENT_LENGTH reportID action report index).
#[local] Abbreviation elapse := (elapse Emoji reportID action).
#[local] Abbreviation step :=
  (step Emoji SkinTone replaceEmojis getFrequentlyUsedEmojis getCommentLength
     MAX_COMMENT_LENGTH reportID action report index preferredSkinTone).
#[local] Abbreviation steps :=
  (steps Emoji SkinTone replaceEmojis getFrequentlyUsedEmojis getCommentLength
     MAX_COMMENT_LENGTH reportID action report index preferredSkinTone).

(** The text [updateDraft] works with: the emoji-replaced input, or the
    empty string when the helper gives none. *)
#[local] Abbreviation replaced input :=
  (default EmptyString (text (replaceEmojis input preferredSkinTone))).

Lemma steps_cons i inputs st :
  steps (i :: inputs) st
  = ((steps inputs (step i st).1).1, (step i st).2 ++ (steps inputs (step i st).1).2).
Proof.
  simpl. destruct (step i st) as [st1 effects1]. simpl.
  by destruct (steps inputs st1) as [st2 effects2].
Qed.

Lemma performAll_app (l1 l2 : list (Effect Emoji)) w :
  performAll (l1 ++ l2) w = performAll l2 (performAll l1 w).
Proof. apply foldl_app. Qed.

Lemma draftWrites_app (l1 l2 : list (Effect Emoji)) :
  draftWrites (l1 ++ l2) = draftWrites l1 ++ draftWrites l2.
Proof. apply omap_app. Qed.

Lemma draftWrites_frequent (found : list Emoji) :
  draftWrites
    match found with
    | [] => []
    | _ => [User_updateFrequentlyUsedEmojis (getFrequentlyUsedEmojis found)]
    end = [].
Proof. by destruct found. Qed.

(** No timer is pending: time alone brings no call. *)
Lemma elapse_idle st ms :
  debouncedSaveDraft st = None → (elapse ms st).2 = [] ∧ debouncedSaveDraft (elapse ms st).1 = None.
Proof. unfold ReportActionItemMessageEdit.elapse. by intros ->. Qed.

Lemma steps_idle (waits : list nat) :
  ∀ st, debouncedSaveDraft st = None → (steps (Elapse <$> waits) st).2 = [].
Proof.
  induction waits as [|ms waits IH]; intros st Hidle; [done|].
  rewrite fmap_cons, steps_cons.
  destruct (elapse_idle st ms Hidle) as [Heff Hnext].
  cbn [snd]. change (step (Elapse ms) st) with (elapse ms st).
  by rewrite Heff, IH.
Qed.

(** C7.  A commit attempt on a draft whose comment length exceeds the
    maximum is blocked at once: [publishDraft] makes no call at all, so no
    mutation is dispatched and nothing is written to the store, and the
    component, its timer included, stays as it was. *)
Theorem publishDraft_blocked_when_too_long (st : State) (w : World) :
  getCommentLength (draft st) > MAX_COMMENT_LENGTH →
  publishDraft st = (st, [])
  ∧ editMutations (publishDraft st).2 = []
  ∧ draftWrites (publishDraft st).2 = []
  ∧ performAll (publishDraft st).2 w = w.
Proof.
  intros Hlong. unfold ReportActionItemMessageEdit.publishDraft.
  assert (Hlt : (MAX_COMMENT_LENGTH <? getCommentLength (draft st)) = true)
    by (apply Nat.ltb_lt; lia).
  rewrite Hlt.
  done.
Qed.

(** C3, as the code has it.  Committing a draft that is empty after
    trimming dispatches no edit mutation and writes no draft, so that the
    comment, the persisted draft and the text in the composer stay as they
    are; when the comment length of the draft does not exceed the maximum,
    which [publishDraft] checks first, the only call is the one that opens
    the delete confirmation. *)
Theorem publishDraft_blank_asks_to_delete (st : State) (w : World) :
  JS.trim (draft st) = EmptyString →
  let reportID' :=
    if bool_decide (parentReportActionID report = Some (reportActionID action))
    then parentReportID report else Some reportID in
  let st' := (publishDraft st).1 in
  let effects := (publishDraft st).2 in
  let w' := performAll effects w in
  editMutations effects = []
  ∧ draftWrites effects = []
  ∧ draft st' = draft st
  ∧ drafts w' = drafts w ∧ comments w' = comments w ∧ dispatched w' = dispatched w
  ∧ (getCommentLength (draft st) <= MAX_COMMENT_LENGTH →
     effects = [ReportActionContextMenu_showDeleteModal reportID' action false]
     ∧ deleteModalVisible w' = true).
Proof.
  intros Hblank reportID' st' effects w'.
  subst st' effects w'. unfold ReportActionItemMessageEdit.publishDraft.
  destruct (MAX_COMMENT_LENGTH <? getCommentLength (draft st)) eqn:Hlen.
  - apply Nat.ltb_lt in Hlen. split_and!; try done. lia.
  - rewrite Hblank. simpl. split_and!; done.
Qed.

(** C5.  [deleteDraft] sets the draft at its owner key to the empty
    string, dispatches no mutation and leaves the comment as it is, shows
    and focuses the shared composer, and cancels the pending debounced
    write: however much time passes afterwards, nothing is written. *)
Theorem deleteDraft_discards (st : State) (w : World) (waits : list nat) :
  let st' := (deleteDraft st).1 in
  let effects := (deleteDraft st).2 in
  let w' := performAll effects w in
  drafts w' !! (reportID, reportActionID action) = Some EmptyString
  ∧ editMutations effects = []
  ∧ dispatched w' = dispatched w
  ∧ comments w' = comments w
  ∧ shouldShowComposeInput w' = true
  ∧ composerFocused w' = true
  ∧ debouncedSaveDraft st' = None
  ∧ (steps (Elapse <$> waits) st').2 = [].
Proof.
  intros st' effects w'. subst st' effects w'.
  unfold ReportActionItemMessageEdit.deleteDraft. simpl.
  split_and!; try (by destruct (index =? 0)%Z).
  - destruct (index =? 0)%Z; simpl; apply lookup_insert_eq.
  - by apply steps_idle.
Qed.

Lemma updateDraft_schedules input st :
  debouncedSaveDraft (updateDraft input st).1
  = Some (clock st + 1000, draftToSave action (replaced input))
  ∧ clock (updateDraft input st).1 = clock st
  ∧ draftWrites (updateDraft input st).2 = [].
Proof.
  unfold ReportActionItemMessageEdit.updateDraft. simpl.
  split_and!; try done. apply draftWrites_frequent.
Qed.

Lemma elapse_pending st due (d : string) ms :
  debouncedSaveDraft st = Some (due, d) →
  clock (elapse ms st).1 = clock st + ms
  ∧ draftWrites (elapse ms st).2 = (if due <=? clock st + ms then [d] else [])
  ∧ debouncedSaveDraft (elapse ms st).1
    = (if due <=? clock st + ms then None else Some (due, d)).
Proof.
  intros Hpending. unfold ReportActionItemMessageEdit.elapse, Underscore.fire.
  rewrite Hpending. by destruct (due <=? clock st + ms).
Qed.

Lemma draftToSave_not_blank newDraft :
  JS.trim newDraft ≠ EmptyString →
  draftToSave action newDraft = Underscore.escape newDraft.
Proof.
  intros Hne. unfold draftToSave.
  destruct (0 <? JS.length (JS.trim newDraft))%Z eqn:Hlen; [done|].
  apply Z.ltb_ge in Hlen. destruct Hne. apply length_zero_empty.
  unfold JS.length in *. lia.
Qed.

Lemma draftToSave_blank newDraft :
  JS.trim newDraft = EmptyString →
  draftToSave action newDraft = message_0_html action.
Proof. intros Hblank. unfold draftToSave. by rewrite Hblank. Qed.

(** C6, as the code has it.  Two [updateDraft] calls less than one second
    apart produce exactly one draft write, one second after the second
    call and none before; it carries what the second call hands to the
    debounced save: the escaped emoji-replaced text of the second input,
    or the HTML of the original message when that text is blank. *)
Theorem updateDraft_twice_writes_once (st : State) (first second : string) (gap rest : nat) :
  gap < 1000 →
  draftWrites
    (steps [ChangeText first; Elapse gap; ChangeText second; Elapse rest] st).2
  = (if 1000 <=? rest then [draftToSave action (replaced second)] else [])
  ∧ (JS.trim (replaced second) ≠ EmptyString →
     draftToSave action (replaced second) = Underscore.escape (replaced second))
  ∧ (JS.trim (replaced second) = EmptyString →
     draftToSave action (replaced second) = message_0_html action).
Proof.
  intros Hgap. split; [|split; [apply draftToSave_not_blank|apply draftToSave_blank]].
  rewrite !steps_cons. cbn [fst snd].
  change (ReportActionItemMessageEdit.steps _ _ _ _ _ _ _ _ _ _ _ [] ?x) with (x, @nil (Effect Emoji)).
  cbn [fst snd]. rewrite !draftWrites_app.
  change (step (ChangeText first) st) with (updateDraft first st).
  destruct (updateDraft_schedules first st) as (Hp1 & Hc1 & Hw1).
  set (st1 := (updateDraft first st).1) in *.
  change (step (Elapse gap) st1) with (elapse gap st1).
  destruct (elapse_pending st1 _ _ gap Hp1) as (Hc2 & Hw2 & Hp2).
  set (st2 := (elapse gap st1).1) in *.
  change (step (ChangeText second) st2) with (updateDraft second st2).
  destruct (updateDraft_schedules second st2) as (Hp3 & Hc3 & Hw3).
  set (st3 := (updateDraft second st2).1) in *.
  change (step (Elapse rest) st3) with (elapse rest st3).
  destruct (elapse_pending st3 _ _ rest Hp3) as (Hc4 & Hw4 & Hp4).
  rewrite Hw1, Hw2, Hw3, Hw4, Hc3, Hc2, Hc1.
  assert (Hnot : (clock st + 1000 <=? clock st + gap) = false)
    by (apply Nat.leb_gt; lia).
  rewrite Hnot, !app_nil_l, app_nil_r.
  destruct (1000 <=? rest) eqn:Hrest.
  - apply Nat.leb_le in Hrest.
    assert (Hdue : (clock st + gap + 1000 <=? clock st + gap + rest) = true)
      by (apply Nat.leb_le; lia).
    by rewrite Hdue.
  - apply Nat.leb_gt in Hrest.
    assert (Hdue : (clock st + gap + 1000 <=? clock st + gap + rest) = false)
      by (apply Nat.leb_gt; lia).
    by rewrite Hdue.
Qed.

(** C9.  When the emoji-replaced text of an [updateDraft] input is empty
    after trimming, the debounced save is handed the HTML of the original
    message, and that is what is written once the second has passed;
    whatever the input, what [updateDraft] hands over is not the empty
    string, as long as the original message is not empty. *)
Theorem updateDraft_blank_saves_original (st : State) (input : string) (ms : nat) :
  JS.trim (replaced input) = EmptyString →
  let st' := (updateDraft input st).1 in
  debouncedSaveDraft st' = Some (clock st + 1000, message_0_html action)
  ∧ (1000 <= ms →
     (elapse ms st').2
     = [Report_saveReportActionDraft reportID (reportActionID action) (message_0_html action)])
  ∧ (message_0_html action ≠ EmptyString →
     ∀ anyInput, draftToSave action (replaced anyInput) ≠ EmptyString).
Proof.
  intros Hblank st'. subst st'.
  destruct (updateDraft_schedules input st) as (Hp & Hc & _).
  rewrite (draftToSave_blank _ Hblank) in Hp.
  split_and!.
  - done.
  - intros Hms. unfold ReportActionItemMessageEdit.elapse, Underscore.fire.
    rewrite Hp, Hc.
    assert (Hdue : (clock st + 1000 <=? clock st + ms) = true)
      by (apply Nat.leb_le; lia).
    by rewrite Hdue.
  - intros Hhtml anyInput.
    destruct (decide (JS.trim (replaced anyInput) = EmptyString)) as [Hb|Hnb].
    + by rewrite draftToSave_blank.
    + rewrite draftToSave_not_blank by done. apply escape_not_empty.
      intros Heq. apply Hnb. by rewrite Heq.
Qed.

End message_edit.

(** ** The composer on concrete inputs *)

Section message_edit_runs.

Import ReportActionItemMessageEdit.

(** The scenario of section 8: the draft [Hello] is edited to the empty
    string and a
    commit is attempted: the delete confirmation opens, nothing is
    dispatched, and the persisted draft is still there. *)
Example hello_emptied_then_saved :
  let run := Sample.steps [ChangeText EmptyString; PressSave] (Sample.editing "Hello") in
  run.2 = [ReportActionContextMenu_showDeleteModal (Some "42") Sample.action false]
  ∧ deleteModalVisible (performAll run.2 Sample.world) = true
  ∧ dispatched (performAll run.2 Sample.world) = []
  ∧ drafts (performAll run.2 Sample.world) !! ("42", "1001") = Some "Hello".
Proof. vm_compute. done. Qed.

(** A non-empty edit is committed: the edit mutation, then the draft is
    cleared and the composer restored. *)
Example hello_edited_then_saved :
  (Sample.steps [ChangeText " Hello there "; PressSave] (Sample.editing "Hello")).2
  = [Report_editReportComment (Some "42") Sample.action "Hello there";
     Report_saveReportActionDraft "42" "1001" EmptyString;
     ComposerActions_setShouldShowComposeInput true;
     ReportActionComposeFocusManager_focus].
Proof. vm_compute. done. Qed.

(** An edit is cancelled half a second after the last key stroke: the
    pending write never arrives. *)
Example hello_edited_then_cancelled :
  draftWrites
    (Sample.steps [ChangeText "Hello t"; Elapse 500; PressCancel; Elapse 500; Elapse 5000]
       (Sample.editing "Hello")).2
  = [EmptyString].
Proof. vm_compute. done. Qed.

Lemma publishDraft_blocked_when_too_long_witness :
  Sample.getCommentLength (draft (Sample.editing "Hello")) > 3
  ∧ publishDraft unit Sample.getCommentLength 3 Sample.reportID Sample.action Sample.report 1
      (Sample.editing "Hello")
    = (Sample.editing "Hello", []).
Proof.
  assert (H : Sample.getCommentLength (draft (Sample.editing "Hello")) > 3)
    by (vm_compute; lia).
  split; [exact H|].
  exact (proj1 (publishDraft_blocked_when_too_long (Emoji := unit) Sample.getCommentLength 3
                  Sample.reportID Sample.action Sample.report 1
                  (Sample.editing "Hello") Sample.world H)).
Defined.

Lemma publishDraft_blank_asks_to_delete_witness :
  JS.trim (draft (Sample.editing "  ")) = EmptyString
  ∧ (publishDraft unit Sample.getCommentLength Sample.MAX_COMMENT_LENGTH Sample.reportID
       Sample.action Sample.report 1 (Sample.editing "  ")).2
    = [ReportActionContextMenu_showDeleteModal (Some "42") Sample.action false].
Proof.
  split; [reflexivity|].
  destruct (publishDraft_blank_asks_to_delete (Emoji := unit) Sample.getCommentLength
              Sample.MAX_COMMENT_LENGTH Sample.reportID Sample.action Sample.report 1
              (Sample.editing "  ") Sample.world eq_refl) as (_ & _ & _ & _ & _ & _ & H).
  apply H. vm_compute. lia.
Defined.

(** C3, as stated, fails.  A draft of line feeds, one more than the
    maximum comment length, is empty after trimming; with a comment length
    that counts its characters it exceeds the maximum, and [publishDraft]
    returns before it reaches the delete confirmation: no call is made. *)
Lemma publishDraft_blank_but_too_long :
  let st := Sample.editing (Sample.lineFeeds (S Sample.MAX_COMMENT_LENGTH)) in
  let effects :=
    (publishDraft unit Sample.getCommentLength Sample.MAX_COMMENT_LENGTH Sample.reportID
       Sample.action Sample.report 1 st).2 in
  JS.trim (draft st) = EmptyString
  ∧ effects = []
  ∧ effects ≠ [ReportActionContextMenu_showDeleteModal (Some "42") Sample.action false].
Proof. vm_compute. split_and!; [reflexivity|reflexivity|discriminate]. Qed.

Lemma updateDraft_twice_writes_once_witness :
  500 < 1000
  ∧ draftWrites
      (Sample.steps [ChangeText "Hell"; Elapse 500; ChangeText "Hello <3"; Elapse 1000]
         (Sample.editing "Hello")).2
    = ["Hello &lt;3"].
Proof.
  assert (H : 500 < 1000) by lia.
  split; [exact H|].
  exact (proj1 (updateDraft_twice_writes_once Sample.replaceEmojis Sample.getFrequentlyUsedEmojis
                  Sample.getCommentLength Sample.MAX_COMMENT_LENGTH Sample.reportID
                  Sample.action Sample.report 1 tt (Sample.editing "Hello")
                  "Hell" "Hello <3" 500 1000 H)).
Defined.

(** C6, as stated, fails.  The second of two calls within a second
    empties the text: the one write that follows carries the HTML of the
    original message, not the content of the second call. *)
Lemma updateDraft_twice_blank_second_writes_original :
  let second := EmptyString in
  let writes :=
    draftWrites
      (Sample.steps [ChangeText "Hell"; Elapse 500; ChangeText second; Elapse 1000]
         (Sample.editing "Hello")).2 in
  writes = ["Hello"] ∧ writes ≠ [second].
Proof. vm_compute. split; [reflexivity|discriminate]. Qed.

Lemma updateDraft_blank_saves_original_witness :
  JS.trim (default EmptyString (text (Sample.replaceEmojis "  " tt))) = EmptyString
  ∧ debouncedSaveDraft
      (updateDraft unit unit Sample.replaceEmojis Sample.getFrequentlyUsedEmojis
         Sample.action tt "  " (Sample.editing "Hello")).1
    = Some (1000, "Hello").
Proof.
  split; [reflexivity|].
  exact (proj1 (updateDraft_blank_saves_original Sample.replaceEmojis
                  Sample.getFrequentlyUsedEmojis Sample.reportID Sample.action tt
                  (Sample.editing "Hello") "  " 1000 eq_refl)).
Defined.

End message_edit_runs.

(** ** The distance edit page *)

Section distance_edit.

Import EditRequestDistancePage.

Variable temporaryTransactionID : nat → Transaction → string.
Variable props_transactionID : string.
Variable props_reportID : string.

#[local] Abbreviation session :=
  (session temporaryTransactionID props_transactionID props_reportID).
#[local] Abbreviation step := (step temporaryTransactionID props_reportID).
#[local] Abbreviation mount := (mount temporaryTransactionID props_transactionID).
#[local] Abbreviation rerender := (rerender temporaryTransactionID).

Lemma session_app transaction inputs1 inputs2 st :
  session transaction (inputs1 ++ inputs2) st
  = foldl (λ acc i, step i acc) (session transaction inputs1 st) inputs2.
Proof.
  unfold EditRequestDistancePage.session.
  destruct (mount transaction st) as [rendered st1]. apply foldl_app.
Qed.

(** The edits of the child reach the transaction it was given, and
    nothing else; the page stays as it was rendered. *)
Lemma edits_stay_on_copy (rendered : Rendered) (edits : list json) :
  ∀ st w0,
    let id := transactionID (transactionToEdit rendered) in
    transactions st !! id = Some (mkTransaction id w0) →
    let page := foldl (λ acc i, step i acc) (Some rendered, st) (EditWaypoints <$> edits) in
    page.1 = Some rendered
    ∧ transactions page.2 !! id = Some (mkTransaction id (default w0 (last edits)))
    ∧ (∀ id', id' ≠ id → transactions page.2 !! id' = transactions st !! id')
    ∧ calls page.2 = calls st
    ∧ created page.2 = created st.
Proof.
  induction edits as [|w edits IH]; intros st w0 id Hcopy; [done|].
  cbv zeta. rewrite fmap_cons. cbn [foldl].
  change (step (EditWaypoints w) (Some rendered, st))
    with (Some rendered, editWaypoints id w st).
  set (st1 := editWaypoints id w st).
  assert (Hcopy1 : transactions st1 !! id = Some (mkTransaction id w)).
  { unfold st1. simpl. by rewrite lookup_alter_eq, Hcopy. }
  pose proof (IH st1 w Hcopy1) as Hrest. cbv zeta in Hrest. fold id in Hrest.
  destruct Hrest as (Hpage & Hlast & Hother & Hcalls & Hcreated).
  split_and!.
  - done.
  - rewrite Hlast. f_equal. f_equal. rewrite last_cons. by destruct (last edits).
  - intros id' Hid. rewrite Hother by done.
    unfold st1. simpl. by rewrite lookup_alter_ne.
  - by rewrite Hcalls.
  - by rewrite Hcreated.
Qed.

Lemma step_submit (rendered : Rendered) (t : Transaction) page :
  page.1 = Some rendered →
  transactions page.2 !! transactionID (transactionToEdit rendered) = Some t →
  step Submit page = (Some rendered, saveTransaction props_reportID rendered (waypoints t) page.2).
Proof.
  destruct page as [r st]. simpl. intros -> Ht.
  unfold EditRequestDistancePage.step. simpl. by rewrite Ht.
Qed.

Lemma step_unmount (rendered : Rendered) page :
  page.1 = Some rendered → step Unmount page = (None, unmount rendered page.2).
Proof. destruct page as [r st]. simpl. by intros ->. Qed.

Lemma step_render (rendered : Rendered) transaction page :
  page.1 = Some rendered →
  step (Render transaction) page
  = (Some (rerender transaction rendered page.2).1, (rerender transaction rendered page.2).2).
Proof. destruct page as [r st]. simpl. by intros ->. Qed.

(** A session in which the page is rendered once does what the comments
    of the page say.  The edits go to the copy; no other entry of the
    store changes and no update is sent, however many edits are made;
    submitting sends one update, for the ID of the prop [transaction],
    with the waypoints of the copy; unmounting, after a submit or without
    one, removes the copy. *)
Lemma session_of_one_render (transaction : Transaction) (edits : list json) (st : State) :
  let copy := temporaryTransactionID (created st) transaction in
  let latest := default (waypoints transaction) (last edits) in
  let editing := session transaction (EditWaypoints <$> edits) st in
  let saved := session transaction ((EditWaypoints <$> edits) ++ [Submit]) st in
  let left := session transaction ((EditWaypoints <$> edits) ++ [Submit; Unmount]) st in
  let cancelled := session transaction ((EditWaypoints <$> edits) ++ [Unmount]) st in
  (editing.1 = Some (mkRendered transaction (mkTransaction copy (waypoints transaction)))
   ∧ transactions editing.2 !! copy = Some (mkTransaction copy latest)
   ∧ (∀ id, id ≠ copy → transactions editing.2 !! id = transactions st !! id)
   ∧ updates (calls editing.2) = updates (calls st))
  ∧ (calls saved.2
     = calls editing.2
       ++ [IOU_updateDistanceRequest (transactionID transaction) props_reportID latest]
     ∧ transactions saved.2 = transactions editing.2)
  ∧ (left.1 = None ∧ transactions left.2 !! copy = None
     ∧ ∀ id, id ≠ copy → transactions left.2 !! id = transactions st !! id)
  ∧ (cancelled.1 = None ∧ transactions cancelled.2 !! copy = None
     ∧ (∀ id, id ≠ copy → transactions cancelled.2 !! id = transactions st !! id)
     ∧ updates (calls cancelled.2) = updates (calls st)).
Proof.
  intros copy latest editing saved left cancelled.
  set (rendered := mkRendered transaction (mkTransaction copy (waypoints transaction))).
  set (st1 := (mount transaction st).2).
  assert (Hediting : editing
    = foldl (λ acc i, step i acc) (Some rendered, st1) (EditWaypoints <$> edits)) by done.
  pose proof (edits_stay_on_copy rendered edits st1 (waypoints transaction)) as Hedits.
  cbv zeta in Hedits. rewrite <- Hediting in Hedits.
  destruct Hedits as (Hpage & Hcopy & Hother & Hcalls & _).
  { simpl. apply lookup_insert_eq. }
  simpl in Hcopy, Hother.
  assert (Hframe : ∀ id, id ≠ copy → transactions editing.2 !! id = transactions st !! id).
  { intros id Hid. rewrite Hother by done. simpl. by rewrite lookup_insert_ne. }
  assert (Hupd : updates (calls editing.2) = updates (calls st)).
  { rewrite Hcalls. simpl. unfold updates. rewrite omap_app. simpl. apply app_nil_r. }
  assert (Hsaved : saved = (Some rendered, saveTransaction props_reportID rendered latest editing.2)).
  { unfold saved. rewrite session_app. fold editing. cbn [foldl].
    by rewrite (step_submit rendered (mkTransaction copy latest)). }
  assert (Hcancelled : cancelled = (None, unmount rendered editing.2)).
  { unfold cancelled. rewrite session_app. fold editing. cbn [foldl].
    by apply step_unmount. }
  assert (Hleft : left
    = (None, unmount rendered (saveTransaction props_reportID rendered latest editing.2))).
  { unfold left. change [Submit; Unmount] with ([Submit] ++ [Unmount]).
    rewrite app_assoc, session_app. fold saved. rewrite Hsaved. cbn [foldl].
    by apply step_unmount. }
  split_and!; try done.
  - by rewrite Hsaved.
  - by rewrite Hsaved.
  - by rewrite Hleft.
  - rewrite Hleft. simpl. apply lookup_delete_eq.
  - intros id Hid. rewrite Hleft. simpl. rewrite lookup_delete_ne by done. by apply Hframe.
  - by rewrite Hcancelled.
  - rewrite Hcancelled. simpl. apply lookup_delete_eq.
  - intros id Hid. rewrite Hcancelled. simpl. rewrite lookup_delete_ne by done.
    by apply Hframe.
  - by rewrite Hcancelled.
Qed.

(** C8.  The code does not keep to the claim when the page is rendered
    again during a session.  Before the second render the copy holds the
    edits.  The second render makes a new temporary transaction of the
    prop [transaction] and then runs the cleanup of the previous render:
    the page is still mounted, nothing was submitted, and the copy that
    held the edits is gone.  The transaction that the child is given from
    then on is missing from the store, when the two copies have the same
    ID, or holds the waypoints of the prop, without the edits, when they
    do not.  This holds however the temporary transactions are named. *)
Theorem rerender_removes_edited_copy
    (transaction transaction' : Transaction) (edits : list json) (st : State) :
  let copy := temporaryTransactionID (created st) transaction in
  let copy' := temporaryTransactionID (S (created st)) transaction' in
  let latest := default (waypoints transaction) (last edits) in
  let editing := session transaction (EditWaypoints <$> edits) st in
  let rerendered := session transaction ((EditWaypoints <$> edits) ++ [Render transaction']) st in
  (editing.1 = Some (mkRendered transaction (mkTransaction copy (waypoints transaction)))
   ∧ transactions editing.2 !! copy = Some (mkTransaction copy latest))
  ∧ rerendered.1
    = Some (mkRendered transaction' (mkTransaction copy' (waypoints transaction')))
  ∧ transactions rerendered.2 !! copy = None
  ∧ transactions rerendered.2 !! copy'
    = (if decide (copy' = copy) then None
       else Some (mkTransaction copy' (waypoints transaction')))
  ∧ updates (calls rerendered.2) = updates (calls st).
Proof.
  intros copy copy' latest editing rerendered.
  set (rendered := mkRendered transaction (mkTransaction copy (waypoints transaction))).
  set (st1 := (mount transaction st).2).
  assert (Hediting : editing
    = foldl (λ acc i, step i acc) (Some rendered, st1) (EditWaypoints <$> edits)) by done.
  pose proof (edits_stay_on_copy rendered edits st1 (waypoints transaction)) as Hedits.
  cbv zeta in Hedits. rewrite <- Hediting in Hedits.
  destruct Hedits as (Hpage & Hcopy & _ & Hcalls & Hcreated).
  { simpl. apply lookup_insert_eq. }
  simpl in Hcopy, Hcreated.
  assert (Hre : rerendered
    = (Some (rerender transaction' rendered editing.2).1,
       (rerender transaction' rendered editing.2).2)).
  { unfold rerendered. rewrite session_app. fold editing. cbn [foldl].
    by apply step_render. }
  rewrite Hre. unfold EditRequestDistancePage.rerender, render, createTemporaryTransaction.
  simpl. rewrite Hcreated. fold copy'.
  split_and!; try done.
  - apply lookup_delete_eq.
  - destruct (decide (copy' = copy)) as [->|Hne].
    + apply lookup_delete_eq.
    + rewrite lookup_delete_ne by done. apply lookup_insert_eq.
  - rewrite Hcalls. simpl. unfold updates. rewrite omap_app. simpl. apply app_nil_r.
Qed.

End distance_edit.

Section distance_edit_runs.

Import EditRequestDistancePage.

(** A store that holds the transaction [t1], edited twice and saved, in
    one render: the update carries the edits and the copy is removed. *)
Example distance_edited_and_saved :
  let done := session Scenario.sameID "t1" "r9" Scenario.t1
                [EditWaypoints (JArr [JStr "Home"]);
                 EditWaypoints (JArr [JStr "Home"; JStr "Airport"]);
                 Submit; Unmount] Scenario.t1Stored in
  done.1 = None
  ∧ transactions done.2 = {[ "t1" := Scenario.t1 ]}
  ∧ calls done.2 = [IOU_setDistanceRequestTransactionID "t1";
                    IOU_updateDistanceRequest "t1" "r9" (JArr [JStr "Home"; JStr "Airport"])].
Proof. vm_compute. done. Qed.

(** The same session with a render between the edit and the submit, the
    copies named the same at every call: the copy is gone while the page
    is mounted, and the submit sends nothing. *)
Example distance_edited_rerendered_same_name :
  let run inputs := session Scenario.sameID "t1" "r9" Scenario.t1 inputs Scenario.t1Stored in
  let airport := JArr [JStr "Home"; JStr "Airport"] in
  transactions (run [EditWaypoints airport]).2 !! "t1-temporary"
  = Some (mkTransaction "t1-temporary" airport)
  ∧ (run [EditWaypoints airport; Render Scenario.t1]).1
    = Some (mkRendered Scenario.t1 (mkTransaction "t1-temporary" (waypoints Scenario.t1)))
  ∧ transactions (run [EditWaypoints airport; Render Scenario.t1]).2 = {[ "t1" := Scenario.t1 ]}
  ∧ calls (run [EditWaypoints airport; Render Scenario.t1; Submit]).2
    = [IOU_setDistanceRequestTransactionID "t1"].
Proof. vm_compute. done. Qed.

(** And with copies named anew at every call: the child is given a copy
    without the edit, and the submit sends the waypoints as they were. *)
Example distance_edited_rerendered_new_name :
  let run inputs := session Scenario.newID "t1" "r9" Scenario.t1 inputs Scenario.t1Stored in
  let airport := JArr [JStr "Home"; JStr "Airport"] in
  transactions (run [EditWaypoints airport]).2 !! "t1-temporary-0"
  = Some (mkTransaction "t1-temporary-0" airport)
  ∧ transactions (run [EditWaypoints airport; Render Scenario.t1]).2
    = {[ "t1" := Scenario.t1;
         "t1-temporary-1" := mkTransaction "t1-temporary-1" (waypoints Scenario.t1) ]}
  ∧ calls (run [EditWaypoints airport; Render Scenario.t1; Submit]).2
    = [IOU_setDistanceRequestTransactionID "t1";
       IOU_updateDistanceRequest "t1" "r9" (JArr [JStr "Home"; JStr "Office"])].
Proof. vm_compute. done. Qed.

End distance_edit_runs.

(** * Part III: further properties of the code *)

(** ** Trimming and escaping *)

Section trim_lemmas.

Lemma rev_app_list s1 : ∀ s2,
  String.rev_app s1 s2
  = string_of_list_ascii (rev (list_ascii_of_string s1) ++ list_ascii_of_string s2).
Proof.
  induction s1 as [|a s1 IH]; intros s2; simpl.
  - by rewrite string_of_list_ascii_of_string.
  - rewrite IH. simpl. by rewrite <- app_assoc.
Qed.

Lemma rev_list s :
  String.rev s = string_of_list_ascii (rev (list_ascii_of_string s)).
Proof. unfold String.rev. rewrite rev_app_list. simpl. by rewrite app_nil_r. Qed.

Lemma rev_rev s : String.rev (String.rev s) = s.
Proof.
  rewrite (rev_list (String.rev s)), rev_list, list_ascii_of_string_of_list_ascii.
  by rewrite rev_involutive, string_of_list_ascii_of_string.
Qed.

Lemma trimStart_idem s : JS.trimStart (JS.trimStart s) = JS.trimStart s.
Proof.
  induction s as [|c s IH]; [done|]. simpl.
  destruct (JS.isWhiteSpace c) eqn:Hc; [done|]. simpl. by rewrite Hc.
Qed.

Lemma trimEnd_idem s : JS.trimEnd (JS.trimEnd s) = JS.trimEnd s.
Proof. unfold JS.trimEnd. by rewrite rev_rev, trimStart_idem. Qed.

Lemma trimStart_length s : String.length (JS.trimStart s) <= String.length s.
Proof.
  induction s as [|a s IH]; simpl; [lia|].
  destruct (JS.isWhiteSpace a); simpl; lia.
Qed.

(** Trimming the start of a text that ends with a character that is not
    white space leaves a text that ends with this character. *)
Lemma trimStart_keeps_last (l : list ascii) c :
  JS.isWhiteSpace c = false →
  ∃ l', JS.trimStart (string_of_list_ascii (l ++ [c])) = string_of_list_ascii (l' ++ [c]).
Proof.
  intros Hc. induction l as [|a l IH]; simpl.
  - rewrite Hc. by exists [].
  - destruct (JS.isWhiteSpace a); [done|]. by exists (a :: l).
Qed.

Lemma trimEnd_keeps_clean_start s :
  JS.trimStart s = s → JS.trimStart (JS.trimEnd s) = JS.trimEnd s.
Proof.
  destruct s as [|c s]; [done|]. simpl.
  destruct (JS.isWhiteSpace c) eqn:Hc.
  - intros Heq. exfalso. pose proof (trimStart_length s) as Hlen.
    rewrite Heq in Hlen. simpl in Hlen. lia.
  - intros _. unfold JS.trimEnd. rewrite (rev_list (String c s)). simpl.
    destruct (trimStart_keeps_last (rev (list_ascii_of_string s)) c Hc) as [l' ->].
    rewrite rev_list, list_ascii_of_string_of_list_ascii, rev_app_distr. simpl.
    by rewrite Hc.
Qed.

Lemma trim_idem s : JS.trim (JS.trim s) = JS.trim s.
Proof.
  unfold JS.trim.
  rewrite (trimEnd_keeps_clean_start (JS.trimStart s)) by apply trimStart_idem.
  apply trimEnd_idem.
Qed.

End trim_lemmas.

Section escape_lemmas.

Lemma decodeHead_escapeChar c rest :
  Unescape.decodeHead (Underscore.escapeChar c ++ rest)%string = Some (c, rest).
Proof. destruct c as [[] [] [] [] [] [] [] []]; reflexivity. Qed.

Lemma escape_inj s1 : ∀ s2, Underscore.escape s1 = Underscore.escape s2 → s1 = s2.
Proof.
  induction s1 as [|c1 s1 IH]; intros [|c2 s2]; try done.
  - intros Heq. symmetry in Heq. by apply escape_not_empty in Heq.
  - intros Heq. by apply escape_not_empty in Heq.
  - simpl. intros Heq. apply (f_equal Unescape.decodeHead) in Heq.
    rewrite !decodeHead_escapeChar in Heq. injection Heq as -> Heq.
    f_equal. by apply IH.
Qed.

Lemma list_ascii_of_string_app s1 s2 :
  list_ascii_of_string (s1 ++ s2)%string
  = list_ascii_of_string s1 ++ list_ascii_of_string s2.
Proof. induction s1 as [|a s1 IH]; simpl; [done|]. by rewrite IH. Qed.

Lemma escapeChar_no_markup c m :
  In m Unescape.markup → ¬ In m (list_ascii_of_string (Underscore.escapeChar c)).
Proof.
  intros Hm Hin. unfold Unescape.markup in Hm. simpl in Hm.
  destruct Hm as [<-|[<-|[<-|[<-|[<-|[]]]]]];
    destruct c as [[] [] [] [] [] [] [] []]; vm_compute in Hin;
    repeat (destruct Hin as [Hin|Hin]; [discriminate Hin|]); exact Hin.
Qed.

(** Escaped text holds none of the markup characters. *)
Lemma escape_no_markup s m :
  In m Unescape.markup → ¬ In m (list_ascii_of_string (Underscore.escape s)).
Proof.
  intros Hm. induction s as [|c s IH]; simpl; [tauto|].
  rewrite list_ascii_of_string_app, in_app_iff.
  intros [Hin|Hin]; [by eapply escapeChar_no_markup|done].
Qed.

End escape_lemmas.

(** ** The message edit composer, continued *)

Section message_edit_more.

Import ReportActionItemMessageEdit.

Context {Emoji SkinTone : Type}.
Variable replaceEmojis : string → SkinTone → ReplacedEmojis Emoji.
Variable getFrequentlyUsedEmojis : list Emoji → list Emoji.
Variable getCommentLength : string → nat.
Variable MAX_COMMENT_LENGTH : nat.
Variable reportID : string.
Variable action : Action.
Variable report : Report.
Variable index : Z.
Variable preferredSkinTone : SkinTone.
Variable htmlToMarkdown : string → string.
Variable htmlDecode : string → string.

#[local] Abbreviation updateDraft :=
  (updateDraft Emoji SkinTone replaceEmojis getFrequentlyUsedEmojis action preferredSkinTone).
#[local] Abbreviation deleteDraft := (deleteDraft Emoji reportID action index).
#[local] Abbreviation publishDraft :=
  (publishDraft Emoji getCommentLength MAX_COMMENT_LENGTH reportID action report index).
#[local] Abbreviation elapse := (elapse Emoji reportID action).
#[local] Abbreviation step :=
  (step Emoji SkinTone replaceEmojis getFrequentlyUsedEmojis getCommentLength
     MAX_COMMENT_LENGTH reportID action report index preferredSkinTone).
#[local] Abbreviation steps :=
  (steps Emoji SkinTone replaceEmojis getFrequentlyUsedEmojis getCommentLength
     MAX_COMMENT_LENGTH reportID action report index preferredSkinTone).
#[local] Abbreviation replaced input :=
  (default EmptyString (text (replaceEmojis input preferredSkinTone))).
#[local] Abbreviation initialDraft := (initialDraft action htmlToMarkdown htmlDecode).
#[local] Abbreviation reportIDForEdit :=
  (if bool_decide (parentReportActionID report = Some (reportActionID action))
   then parentReportID report else Some reportID).

Lemma editMutations_app (l1 l2 : list (Effect Emoji)) :
  editMutations (l1 ++ l2) = editMutations l1 ++ editMutations l2.
Proof. apply omap_app. Qed.

Lemma eqb_empty_false s : s ≠ EmptyString → String.eqb s EmptyString = false.
Proof. intros Hs. by apply String.eqb_neq. Qed.

(** What [publishDraft] does, case by case. *)
Lemma publishDraft_cases st :
  (MAX_COMMENT_LENGTH < getCommentLength (draft st) ∧ publishDraft st = (st, []))
  ∨ (JS.trim (draft st) = EmptyString
     ∧ (publishDraft st).2 = [ReportActionContextMenu_showDeleteModal reportIDForEdit action false]
     ∧ debouncedSaveDraft (publishDraft st).1 = None)
  ∨ (JS.trim (draft st) ≠ EmptyString
     ∧ getCommentLength (draft st) <= MAX_COMMENT_LENGTH
     ∧ (publishDraft st).2
       = Report_editReportComment reportIDForEdit action (JS.trim (draft st))
           :: (deleteDraft st).2
     ∧ debouncedSaveDraft (publishDraft st).1 = None).
Proof.
  unfold ReportActionItemMessageEdit.publishDraft.
  destruct (MAX_COMMENT_LENGTH <? getCommentLength (draft st)) eqn:Hlen.
  - left. apply Nat.ltb_lt in Hlen. done.
  - right. apply Nat.ltb_ge in Hlen.
    destruct (decide (JS.trim (draft st) = EmptyString)) as [Hblank|Hfull].
    + left. rewrite Hblank. done.
    + right. rewrite (eqb_empty_false _ Hfull). done.
Qed.

(** X1.  Committing a draft that is not blank and within the length limit
    sends one edit mutation with the trimmed draft, to the parent report
    when the comment is the first of a thread, and then does all that
    [deleteDraft] does: the draft is cleared under the report ID of the
    props, the main composer shown and focused, and the pending debounced
    write cancelled, so that no write follows however much time passes. *)
Theorem publishDraft_commits_trimmed_draft (st : State) (w : World) (waits : list nat) :
  JS.trim (draft st) ≠ EmptyString →
  getCommentLength (draft st) <= MAX_COMMENT_LENGTH →
  let st' := (publishDraft st).1 in
  let effects := (publishDraft st).2 in
  let w' := performAll effects w in
  effects
  = Report_editReportComment reportIDForEdit action (JS.trim (draft st)) :: (deleteDraft st).2
  ∧ editMutations effects = [JS.trim (draft st)]
  ∧ dispatched w'
    = dispatched w ++ [(reportIDForEdit, reportActionID action, JS.trim (draft st))]
  ∧ comments w' !! reportActionID action = Some (JS.trim (draft st))
  ∧ drafts w' !! (reportID, reportActionID action) = Some EmptyString
  ∧ shouldShowComposeInput w' = true
  ∧ composerFocused w' = true
  ∧ (steps (Elapse <$> waits) st').2 = [].
Proof.
  intros Hfull Hlen st' effects w'. subst st' effects w'.
  destruct (publishDraft_cases st) as [[Hlong _]|[[Hblank _]|(_ & _ & Heff & Hidle)]];
    [lia|done|].
  rewrite Heff. split; [done|].
  unfold ReportActionItemMessageEdit.deleteDraft. simpl.
  split_and!; try (by destruct (index =? 0)%Z).
  - destruct (index =? 0)%Z; simpl; apply lookup_insert_eq.
  - destruct (index =? 0)%Z; simpl; apply lookup_insert_eq.
  - apply (steps_idle replaceEmojis getFrequentlyUsedEmojis getCommentLength
             MAX_COMMENT_LENGTH reportID action report index preferredSkinTone).
    exact Hidle.
Qed.

Lemma step_editMutations i st :
  editMutations (step i st).2 = []
  ∨ (i = PressSave ∧ JS.trim (draft st) ≠ EmptyString
     ∧ editMutations (step i st).2 = [JS.trim (draft st)]).
Proof.
  destruct i as [input| | |ms].
  - left. change (step (ChangeText input) st) with (updateDraft input st).
    unfold ReportActionItemMessageEdit.updateDraft. simpl.
    by destruct (default [] (emojis (replaceEmojis input preferredSkinTone))).
  - change (step PressSave st) with (publishDraft st).
    destruct (publishDraft_cases st) as [[_ ->]|[(_ & -> & _)|(Hfull & _ & -> & _)]];
      [by left|by left|].
    right. split_and!; try done.
    unfold ReportActionItemMessageEdit.deleteDraft. simpl.
    by destruct (index =? 0)%Z.
  - left. change (step PressCancel st) with (deleteDraft st).
    unfold ReportActionItemMessageEdit.deleteDraft. simpl.
    by destruct (index =? 0)%Z.
  - left. change (step (Elapse ms) st) with (elapse ms st).
    unfold ReportActionItemMessageEdit.elapse.
    destruct (Underscore.fire (clock st + ms) (debouncedSaveDraft st)) as [timer delivered].
    simpl. by induction delivered.
Qed.

(** X2.  Whatever the user does, in whatever order, every edit mutation
    the component sends carries a text that is not empty and has no white
    space at either end. *)
Theorem edits_sent_are_trimmed_and_not_blank (inputs : list Input) :
  ∀ st, Forall (λ t, t ≠ EmptyString ∧ JS.trim t = t) (editMutations (steps inputs st).2).
Proof.
  induction inputs as [|i inputs IH]; intros st; [by constructor|].
  rewrite (steps_cons replaceEmojis getFrequentlyUsedEmojis getCommentLength
             MAX_COMMENT_LENGTH reportID action report index preferredSkinTone).
  cbn [snd]. rewrite editMutations_app. apply Forall_app. split; [|apply IH].
  destruct (step_editMutations i st) as [->|(_ & Hfull & ->)]; [by constructor|].
  constructor; [|by constructor]. split; [done|apply trim_idem].
Qed.

(** The draft writes of one step, and the timer it leaves. *)
Lemma step_draftWrites i st d :
  d ∈ draftWrites (step i st).2 →
  (d = EmptyString ∧ (i = PressSave ∨ i = PressCancel))
  ∨ ∃ due, debouncedSaveDraft st = Some (due, d).
Proof.
  destruct i as [input| | |ms].
  - change (step (ChangeText input) st) with (updateDraft input st).
    destruct (updateDraft_schedules replaceEmojis getFrequentlyUsedEmojis action
                preferredSkinTone input st) as (_ & _ & ->).
    by intros ?%elem_of_nil.
  - change (step PressSave st) with (publishDraft st).
    destruct (publishDraft_cases st) as [[_ ->]|[(_ & -> & _)|(_ & _ & -> & _)]]; simpl;
      [by intros ?%elem_of_nil|by intros ?%elem_of_nil|].
    destruct (index =? 0)%Z; simpl; intros ->%list_elem_of_singleton; left; auto.
  - change (step PressCancel st) with (deleteDraft st).
    unfold ReportActionItemMessageEdit.deleteDraft. simpl.
    destruct (index =? 0)%Z; simpl; intros ->%list_elem_of_singleton; left; auto.
  - change (step (Elapse ms) st) with (elapse ms st).
    destruct (debouncedSaveDraft st) as [[due x]|] eqn:Hpending.
    + destruct (elapse_pending (Emoji := Emoji) reportID action st due x ms Hpending) as (_ & -> & _).
      destruct (due <=? clock st + ms); [|by intros ?%elem_of_nil].
      intros ->%list_elem_of_singleton. right. by exists due.
    + destruct (elapse_idle (Emoji := Emoji) reportID action st ms Hpending) as [-> _].
      by intros ?%elem_of_nil.
Qed.

Lemma step_timer i st :
  debouncedSaveDraft (step i st).1 = None
  ∨ debouncedSaveDraft (step i st).1 = debouncedSaveDraft st
  ∨ ∃ input, i = ChangeText input
      ∧ debouncedSaveDraft (step i st).1
        = Some (clock st + 1000, draftToSave action (replaced input)).
Proof.
  destruct i as [input| | |ms].
  - right. right. exists input. split; [done|].
    change (step (ChangeText input) st) with (updateDraft input st).
    apply (updateDraft_schedules replaceEmojis getFrequentlyUsedEmojis action
             preferredSkinTone input st).
  - change (step PressSave st) with (publishDraft st).
    destruct (publishDraft_cases st) as [[_ ->]|[(_ & _ & ->)|(_ & _ & _ & ->)]]; auto.
  - by left.
  - change (step (Elapse ms) st) with (elapse ms st).
    destruct (debouncedSaveDraft st) as [[due x]|] eqn:Hpending.
    + destruct (elapse_pending (Emoji := Emoji) reportID action st due x ms Hpending) as (_ & _ & ->).
      destruct (due <=? clock st + ms); auto.
    + destruct (elapse_idle (Emoji := Emoji) reportID action st ms Hpending) as [_ ->]. auto.
Qed.

(** X3.  Whatever the user does, every draft write of the component is
    either the empty string, written by a save or a cancel, or a value
    that was waiting in the timer at the start, or the value that some
    [updateDraft] call of the run handed to the debounced save. *)
Theorem draft_writes_come_from_updateDraft (inputs : list Input) :
  ∀ st d, d ∈ draftWrites (steps inputs st).2 →
    (d = EmptyString ∧ (PressSave ∈ inputs ∨ PressCancel ∈ inputs))
    ∨ (∃ due, debouncedSaveDraft st = Some (due, d))
    ∨ (∃ input, ChangeText input ∈ inputs ∧ d = draftToSave action (replaced input)).
Proof.
  induction inputs as [|i inputs IH]; intros st d; [by intros ?%elem_of_nil|].
  rewrite (steps_cons replaceEmojis getFrequentlyUsedEmojis getCommentLength
             MAX_COMMENT_LENGTH reportID action report index preferredSkinTone).
  cbn [snd]. rewrite draftWrites_app, elem_of_app. intros [Hnow|Hlater].
  - destruct (step_draftWrites i st d Hnow) as [[-> [-> | ->]]|Hpending].
    + left. split; [done|]. left. by left.
    + left. split; [done|]. right. by left.
    + by right; left.
  - destruct (IH _ _ Hlater) as [[-> Hpress]|[[due Hpending]|(input & Hin & ->)]].
    + left. split; [done|]. destruct Hpress; [left|right]; by right.
    + destruct (step_timer i st) as [Hnone|[Hsame|(input & -> & Hnew)]].
      * congruence.
      * right; left. exists due. congruence.
      * right; right. exists input. split; [by left|]. congruence.
    + right; right. exists input. split; [by right|done].
Qed.

(** X4.  While the user only types and time passes, on a comment whose
    HTML is not empty and with no empty value waiting in the timer, no
    empty draft is ever written. *)
Theorem no_empty_draft_written_while_typing (inputs : list Input) (st : State) :
  message_0_html action ≠ EmptyString →
  (∀ due, debouncedSaveDraft st ≠ Some (due, EmptyString)) →
  PressSave ∉ inputs → PressCancel ∉ inputs →
  Forall (λ d, d ≠ EmptyString) (draftWrites (steps inputs st).2).
Proof.
  intros Hhtml Hpending Hsave Hcancel. apply Forall_forall. intros d Hd ->.
  assert (Hop : (EmptyString = EmptyString ∧ (PressSave ∈ inputs ∨ PressCancel ∈ inputs))
    ∨ (∃ due, debouncedSaveDraft st = Some (due, EmptyString))
    ∨ (∃ input, ChangeText input ∈ inputs
         ∧ EmptyString = draftToSave action (replaced input))).
  { clear Hhtml Hpending Hsave Hcancel. revert st Hd.
    induction inputs as [|i inputs IH]; intros st; [by intros ?%elem_of_nil|].
    rewrite (steps_cons replaceEmojis getFrequentlyUsedEmojis getCommentLength
               MAX_COMMENT_LENGTH reportID action report index preferredSkinTone).
    cbn [snd]. rewrite draftWrites_app, elem_of_app. intros [Hnow|Hlater].
    - destruct (step_draftWrites i st _ Hnow) as [[_ [-> | ->]]|Hp].
      + left. split; [done|]. left. by left.
      + left. split; [done|]. right. by left.
      + by right; left.
    - destruct (IH _ Hlater) as [[_ Hpress]|[[due Hp]|(input & Hin & Heq)]].
      + left. split; [done|]. destruct Hpress; [left|right]; by right.
      + destruct (step_timer i st) as [Hnone|[Hsame|(input & -> & Hnew)]].
        * congruence.
        * right; left. exists due. congruence.
        * right; right. exists input. split; [by left|]. congruence.
      + right; right. exists input. split; [by right|done]. }
  destruct Hop as [[_ [?|?]]|[[due Hp]|(input & _ & Heq)]]; try done.
  - by eapply Hpending.
  - symmetry in Heq. revert Heq.
    destruct (decide (JS.trim (replaced input) = EmptyString)) as [Hb|Hnb].
    + by rewrite draftToSave_blank.
    + rewrite draftToSave_not_blank by done. apply escape_not_empty.
      intros Heq. apply Hnb. by rewrite Heq.
Qed.




(** The text that the emoji replacement leaves as it is does not move the
    selection. *)
Lemma updateDraft_unchanged_text_keeps_selection (input : string) (st : State) :
  replaced input = input → selection (updateDraft input st).1 = selection st.
Proof.
  intros Hsame. unfold ReportActionItemMessageEdit.updateDraft. simpl.
  rewrite Hsame. by rewrite String.eqb_refl.
Qed.

(** X6.  When a blank edit has been persisted, the component that is
    mounted again on the persisted draft starts from the original message,
    converted to markdown and trimmed, with the cursor at its end. *)
Theorem remount_after_blank_edit (input : string) (st : State) (w : World) (ms now : nat) :
  JS.trim (replaced input) = EmptyString →
  1000 <= ms →
  let run := steps [ChangeText input; Elapse ms] st in
  let persisted := drafts (performAll run.2 w) !! (reportID, reportActionID action) in
  persisted = Some (message_0_html action)
  ∧ draft (mounted action htmlToMarkdown htmlDecode (message_0_html action) now)
    = JS.trim (htmlToMarkdown (message_0_html action))
  ∧ selection (mounted action htmlToMarkdown htmlDecode (message_0_html action) now)
    = (JS.length (JS.trim (htmlToMarkdown (message_0_html action))),
       JS.length (JS.trim (htmlToMarkdown (message_0_html action)))).
Proof.
  intros Hblank Hms run persisted. subst run persisted.
  rewrite !(steps_cons replaceEmojis getFrequentlyUsedEmojis getCommentLength
              MAX_COMMENT_LENGTH reportID action report index preferredSkinTone).
  cbn [fst snd].
  change (ReportActionItemMessageEdit.steps _ _ _ _ _ _ _ _ _ _ _ [] ?x)
    with (x, @nil (Effect Emoji)).
  cbn [fst snd].
  change (step (ChangeText input) st) with (updateDraft input st).
  destruct (updateDraft_schedules replaceEmojis getFrequentlyUsedEmojis action
              preferredSkinTone input st) as (Hp & Hc & _).
  rewrite (draftToSave_blank action _ Hblank) in Hp.
  set (st1 := (updateDraft input st).1) in *.
  change (step (Elapse ms) st1) with (elapse ms st1).
  assert (Hfire : (elapse ms st1).2
    = [Report_saveReportActionDraft reportID (reportActionID action) (message_0_html action)]).
  { unfold ReportActionItemMessageEdit.elapse, Underscore.fire. rewrite Hp, Hc.
    assert (Hdue : (clock st + 1000 <=? clock st + ms) = true) by (apply Nat.leb_le; lia).
    by rewrite Hdue. }
  rewrite Hfire, app_nil_r.
  rewrite (performAll_app (Emoji := Emoji)). simpl.
  split_and!.
  - apply lookup_insert_eq.
  - unfold mounted, ReportActionItemMessageEdit.initialDraft. simpl.
    by rewrite String.eqb_refl.
  - unfold mounted, ReportActionItemMessageEdit.initialDraft. simpl.
    by rewrite String.eqb_refl.
Qed.

(** X7.  On a comment whose HTML holds a markup character, the draft
    saved for a text that is not blank is never the HTML of the comment:
    the component mounted on it takes it for an edited draft and decodes
    it. *)
Theorem edited_draft_is_told_from_original (newDraft : string) (m : ascii) (now : nat) :
  In m Unescape.markup →
  In m (list_ascii_of_string (message_0_html action)) →
  JS.trim newDraft ≠ EmptyString →
  draftToSave action newDraft ≠ message_0_html action
  ∧ draft (mounted action htmlToMarkdown htmlDecode (draftToSave action newDraft) now)
    = htmlDecode (Underscore.escape newDraft).
Proof.
  intros Hm Hin Hfull. rewrite (draftToSave_not_blank action newDraft Hfull).
  assert (Hne : Underscore.escape newDraft ≠ message_0_html action).
  { intros Heq. rewrite <- Heq in Hin. by eapply escape_no_markup. }
  split; [done|].
  unfold mounted, ReportActionItemMessageEdit.initialDraft. simpl.
  by apply String.eqb_neq in Hne as ->.
Qed.

(** X8.  Two texts that are not blank and differ are saved as different
    drafts: escaping loses nothing. *)
Theorem different_drafts_are_saved_differently (draft1 draft2 : string) :
  JS.trim draft1 ≠ EmptyString → JS.trim draft2 ≠ EmptyString →
  draftToSave action draft1 = draftToSave action draft2 → draft1 = draft2.
Proof.
  intros H1 H2. rewrite !draftToSave_not_blank by done. apply escape_inj.
Qed.

End message_edit_more.

(** ** Card actions, continued *)

Section card_actions_more.

Import Replay.

(** A property after a merge of an object: the property of the patch,
    merged into what was there, or what was there. *)
Lemma prop_merge_obj (pm : gmap string json) k o :
  prop k (Some (Onyx.write_value Onyx.MERGE (JObj pm) o))
  = match pm !! k with
    | Some y => Some (Onyx.write_value Onyx.MERGE y (prop k o))
    | None => prop k o
    end.
Proof.
  destruct o as [[| | | | |vm]|]; simpl; try (by destruct (pm !! k)).
  rewrite lookup_union_with. by destruct (vm !! k), (pm !! k).
Qed.

Lemma merge_lookup k p s :
  Onyx.merge k p s !! k = Some (Onyx.write_value Onyx.MERGE p (s !! k)).
Proof. unfold Onyx.merge, Onyx.apply_update. simpl. apply lookup_insert_eq. Qed.

Lemma merge_lookup_ne k k' p s : k ≠ k' → Onyx.merge k p s !! k' = s !! k'.
Proof. intros Hne. unfold Onyx.merge, Onyx.apply_update. simpl. by apply lookup_insert_ne. Qed.

Lemma update_single u s : Onyx.update [u] s = Onyx.merge (Onyx.key u) (Onyx.value u) s
  ∨ Onyx.onyxMethod u = Onyx.SET.
Proof. destruct u as [[] k v]; [by left|by right]. Qed.

(** What a patch [{[cardID]: {...fields}}] does to the properties of the
    cards of a list. *)
Lemma prop_merge_card (cardID : Z) (fields : gmap string json) o q :
  prop q (prop (pretty cardID)
            (Some (Onyx.write_value Onyx.MERGE (Card.byCardID cardID (JObj fields)) o)))
  = match fields !! q with
    | Some y => Some (Onyx.write_value Onyx.MERGE y (prop q (prop (pretty cardID) o)))
    | None => prop q (prop (pretty cardID) o)
    end.
Proof.
  unfold Card.byCardID. rewrite prop_merge_obj, lookup_singleton_eq.
  apply prop_merge_obj.
Qed.

Lemma prop_merge_other_card (cardID other : Z) v o :
  other ≠ cardID →
  prop (pretty other) (Some (Onyx.write_value Onyx.MERGE (Card.byCardID cardID v) o))
  = prop (pretty other) o.
Proof.
  intros Hne. unfold Card.byCardID. rewrite prop_merge_obj, lookup_singleton_ne; [done|].
  intros Heq. apply Hne. symmetry. by apply (inj pretty).
Qed.

(** X9.  [clearCardListErrors] sets [errors] to null and [isLoading] to
    false on the card it is given and changes nothing else: the other
    properties of this card, the other cards of the list and the other
    keys of the store are what they were. *)
Theorem clearCardListErrors_touches_one_card (cardID : Z) (s : gmap string json) :
  let s' := Card.clearCardListErrors cardID s in
  let card := prop (pretty cardID) (s' !! ONYXKEYS.CARD_LIST) in
  prop "errors" card = Some JNull
  ∧ prop "isLoading" card = Some (JBool false)
  ∧ (∀ q, q ≠ "errors" → q ≠ "isLoading" →
       prop q card = prop q (prop (pretty cardID) (s !! ONYXKEYS.CARD_LIST)))
  ∧ (∀ other, other ≠ cardID →
       prop (pretty other) (s' !! ONYXKEYS.CARD_LIST)
       = prop (pretty other) (s !! ONYXKEYS.CARD_LIST))
  ∧ (∀ k, k ≠ ONYXKEYS.CARD_LIST → s' !! k = s !! k).
Proof.
  intros s' card. subst s' card. unfold Card.clearCardListErrors.
  rewrite merge_lookup. split_and!.
  - rewrite prop_merge_card, lookup_insert_eq.
    by destruct (prop "errors" (prop (pretty cardID) (s !! ONYXKEYS.CARD_LIST))) as [[]|].
  - rewrite prop_merge_card, lookup_insert_ne, lookup_singleton_eq by done.
    by destruct (prop "isLoading" (prop (pretty cardID) (s !! ONYXKEYS.CARD_LIST))) as [[]|].
  - intros q Herr Hload.
    by rewrite prop_merge_card, lookup_insert_ne, lookup_singleton_ne by done.
  - intros other Hother. by apply prop_merge_other_card.
  - intros k Hk. by apply merge_lookup_ne.
Qed.

Lemma write_scalar_true o b :
  Onyx.write_value Onyx.MERGE (JBool b) o = JBool b.
Proof. by destruct o as [[]|]. Qed.

Lemma write_null o : Onyx.write_value Onyx.MERGE JNull o = JNull.
Proof. by destruct o as [[]|]. Qed.

(** X10.  [activatePhysicalExpensifyCard]: while the request is pending
    the card shows [isLoading: true] and [errors: null]; once the request
    is resolved, with success or with failure alike, it shows
    [isLoading: false] and still [errors: null].  Nothing else changes:
    not the other properties of the card, not the other cards, not the
    other keys of the store. *)
Theorem activatePhysicalExpensifyCard_settles
    (cardLastFourDigits : string) (cardID : Z) (s : gmap string json) (sig : API.Signal) :
  let pending := Card.activatePhysicalExpensifyCard cardLastFourDigits cardID (API.init s) in
  let settled := API.resolve sig pending in
  let before := prop (pretty cardID) (s !! ONYXKEYS.CARD_LIST) in
  let during := prop (pretty cardID) (API.store pending !! ONYXKEYS.CARD_LIST) in
  let after := prop (pretty cardID) (API.store settled !! ONYXKEYS.CARD_LIST) in
  (prop "isLoading" during = Some (JBool true) ∧ prop "errors" during = Some JNull)
  ∧ (prop "isLoading" after = Some (JBool false) ∧ prop "errors" after = Some JNull)
  ∧ (∀ q, q ≠ "errors" → q ≠ "isLoading" → prop q after = prop q before)
  ∧ (∀ other, other ≠ cardID →
       prop (pretty other) (API.store settled !! ONYXKEYS.CARD_LIST)
       = prop (pretty other) (s !! ONYXKEYS.CARD_LIST))
  ∧ (∀ k, k ≠ ONYXKEYS.CARD_LIST → API.store settled !! k = s !! k).
Proof.
  intros pending settled before during after.
  assert (Hpending : API.store pending
    = Onyx.merge ONYXKEYS.CARD_LIST
        (Card.byCardID cardID (JObj {[ "errors" := JNull; "isLoading" := JBool true ]})) s)
    by done.
  assert (Hsettled : API.store settled
    = Onyx.merge ONYXKEYS.CARD_LIST (Card.byCardID cardID (Card.isLoading false))
        (API.store pending))
    by (by destruct sig).
  subst before during after. rewrite Hsettled, Hpending. clear.
  rewrite !merge_lookup. unfold Card.isLoading. split_and!.
  - rewrite prop_merge_card, lookup_insert_ne, lookup_singleton_eq by done.
    by rewrite write_scalar_true.
  - rewrite prop_merge_card, lookup_insert_eq. by rewrite write_null.
  - rewrite prop_merge_card, lookup_singleton_eq. by rewrite write_scalar_true.
  - rewrite prop_merge_card, lookup_singleton_ne by done.
    rewrite prop_merge_card, lookup_insert_eq. by rewrite write_null.
  - intros q Herr Hload.
    rewrite prop_merge_card, lookup_singleton_ne by done.
    by rewrite prop_merge_card, lookup_insert_ne, lookup_singleton_ne by done.
  - intros other Hother. by rewrite !prop_merge_other_card.
  - intros k Hk. by rewrite !merge_lookup_ne.
Qed.

(** X11.  [reportVirtualExpensifyCardFraud]: the fraud form shows
    [isLoading: true] while the request is pending and [isLoading: false]
    once it is resolved, with success or with failure alike; the other
    properties of the form and the other keys of the store are what they
    were. *)
Theorem reportVirtualExpensifyCardFraud_settles
    (cardID : Z) (s : gmap string json) (sig : API.Signal) :
  let pending := Card.reportVirtualExpensifyCardFraud cardID (API.init s) in
  let settled := API.resolve sig pending in
  let form (st : gmap string json) := st !! ONYXKEYS.FORMS.REPORT_VIRTUAL_CARD_FRAUD in
  prop "isLoading" (form (API.store pending)) = Some (JBool true)
  ∧ prop "isLoading" (form (API.store settled)) = Some (JBool false)
  ∧ (∀ q, q ≠ "isLoading" → prop q (form (API.store settled)) = prop q (form s))
  ∧ (∀ k, k ≠ ONYXKEYS.FORMS.REPORT_VIRTUAL_CARD_FRAUD → API.store settled !! k = s !! k).
Proof.
  intros pending settled form.
  assert (Hpending : API.store pending
    = Onyx.merge ONYXKEYS.FORMS.REPORT_VIRTUAL_CARD_FRAUD (Card.isLoading true) s) by done.
  assert (Hsettled : API.store settled
    = Onyx.merge ONYXKEYS.FORMS.REPORT_VIRTUAL_CARD_FRAUD (Card.isLoading false)
        (API.store pending))
    by (by destruct sig).
  subst form. cbv beta. rewrite Hsettled, Hpending. clear.
  rewrite !merge_lookup. unfold Card.isLoading. split_and!.
  - rewrite prop_merge_obj, lookup_singleton_eq. by rewrite write_scalar_true.
  - rewrite prop_merge_obj, lookup_singleton_eq. by rewrite write_scalar_true.
  - intros q Hq. by rewrite !prop_merge_obj, !lookup_singleton_ne by done.
  - intros k Hk. by rewrite !merge_lookup_ne.
Qed.

(** X12.  [requestReplacementExpensifyCard]: while the request is pending
    the replacement form shows [isLoading: true] and [errors: null]; once
    it is resolved, with success or with failure alike, [isLoading: false]
    and still [errors: null]; the other properties of the form and the
    other keys of the store are what they were. *)
Theorem requestReplacementExpensifyCard_settles
    (cardId : Z) (reason : string) (s : gmap string json) (sig : API.Signal) :
  let pending := Card.requestReplacementExpensifyCard cardId reason (API.init s) in
  let settled := API.resolve sig pending in
  let form (st : gmap string json) := st !! ONYXKEYS.FORMS.REPORT_PHYSICAL_CARD_FORM in
  (prop "isLoading" (form (API.store pending)) = Some (JBool true)
   ∧ prop "errors" (form (API.store pending)) = Some JNull)
  ∧ (prop "isLoading" (form (API.store settled)) = Some (JBool false)
     ∧ prop "errors" (form (API.store settled)) = Some JNull)
  ∧ (∀ q, q ≠ "isLoading" → q ≠ "errors" →
       prop q (form (API.store settled)) = prop q (form s))
  ∧ (∀ k, k ≠ ONYXKEYS.FORMS.REPORT_PHYSICAL_CARD_FORM → API.store settled !! k = s !! k).
Proof.
  intros pending settled form.
  assert (Hpending : API.store pending
    = Onyx.merge ONYXKEYS.FORMS.REPORT_PHYSICAL_CARD_FORM Card.loadingWithoutErrors s) by done.
  assert (Hsettled : API.store settled
    = Onyx.merge ONYXKEYS.FORMS.REPORT_PHYSICAL_CARD_FORM (Card.isLoading false)
        (API.store pending))
    by (by destruct sig).
  subst form. cbv beta. rewrite Hsettled, Hpending. clear.
  rewrite !merge_lookup. unfold Card.isLoading, Card.loadingWithoutErrors. split_and!.
  - rewrite prop_merge_obj, lookup_insert_eq. by rewrite write_scalar_true.
  - rewrite prop_merge_obj, lookup_insert_ne, lookup_singleton_eq by done.
    by rewrite write_null.
  - rewrite prop_merge_obj, lookup_singleton_eq. by rewrite write_scalar_true.
  - rewrite prop_merge_obj, lookup_singleton_ne by done.
    rewrite prop_merge_obj, lookup_insert_ne, lookup_singleton_eq by done.
    by rewrite write_null.
  - intros q Hload Herr. rewrite prop_merge_obj, lookup_singleton_ne by done.
    by rewrite prop_merge_obj, lookup_insert_ne, lookup_singleton_ne by done.
  - intros k Hk. by rewrite !merge_lookup_ne.
Qed.

End card_actions_more.

Section card_compose.

Import Replay.

(** Two runs of object merges agree when they agree property by
    property. *)
Lemma run_objects_ext pms pms' o :
  pms ≠ [] → pms' ≠ [] →
  (∀ k, run (ops_below k pms) (prop k o) = run (ops_below k pms') (prop k o)) →
  run (obj_merge <$> pms) o = run (obj_merge <$> pms') o.
Proof.
  intros Hne Hne' Hall.
  destruct (run_objects pms Hne o) as (M & -> & HM).
  destruct (run_objects pms' Hne' o) as (M' & -> & HM').
  do 2 f_equal. apply map_eq. intros k. by rewrite HM, HM', Hall.
Qed.

Lemma ops_below_cons k pm pms :
  ops_below k (pm :: pms)
  = match pm !! k with
    | Some y => (Onyx.MERGE, y) :: ops_below k pms
    | None => ops_below k pms
    end.
Proof. unfold ops_below. simpl. by destruct (pm !! k). Qed.

Lemma ops_below_byCardID k (cardID : Z) v pms :
  ops_below k ({[ pretty cardID := v ]} :: pms)
  = if decide (k = pretty cardID) then (Onyx.MERGE, v) :: ops_below k pms
    else ops_below k pms.
Proof.
  rewrite ops_below_cons. destruct (decide (k = pretty cardID)) as [->|Hne].
  - by rewrite lookup_singleton_eq.
  - by rewrite lookup_singleton_ne.
Qed.

Lemma clear_as_update cardID s :
  Card.clearCardListErrors cardID s
  = Onyx.update
      [Onyx.mkUpdate Onyx.MERGE ONYXKEYS.CARD_LIST
         (Card.byCardID cardID (JObj {[ "errors" := JNull; "isLoading" := JBool false ]}))] s.
Proof. reflexivity. Qed.

Lemma update_app us1 us2 s : Onyx.update (us1 ++ us2) s = Onyx.update us2 (Onyx.update us1 s).
Proof. apply foldl_app. Qed.

(** X13.  Clearing the errors of two cards gives the same store in
    either order, whichever the two cards are. *)
Theorem clearCardListErrors_commute (cardID1 cardID2 : Z) (s : gmap string json) :
  Card.clearCardListErrors cardID1 (Card.clearCardListErrors cardID2 s)
  = Card.clearCardListErrors cardID2 (Card.clearCardListErrors cardID1 s).
Proof.
  rewrite !clear_as_update, <- !update_app. apply map_eq. intros k.
  rewrite !update_lookup. unfold ops_at. simpl.
  destruct (decide (ONYXKEYS.CARD_LIST = k)) as [<-|Hk]; [|done].
  unfold Card.byCardID.
  apply (run_objects_ext [_; _] [_; _]); [done|done|]. intros k'.
  rewrite !ops_below_byCardID.
  by destruct (decide (k' = pretty cardID1)), (decide (k' = pretty cardID2)).
Qed.

Lemma ops_below_fields k (fields : gmap string json) pms :
  ops_below k (fields :: pms)
  = match fields !! k with
    | Some y => (Onyx.MERGE, y) :: ops_below k pms
    | None => ops_below k pms
    end.
Proof. apply ops_below_cons. Qed.

(** X14.  Once an activation of a card is resolved, with success or with
    failure, clearing the errors of this card leaves the store as it is:
    the resolved activation has left neither an error nor a loading flag
    behind. *)
Theorem clearCardListErrors_after_activation
    (cardLastFourDigits : string) (cardID : Z) (s : gmap string json) (sig : API.Signal) :
  let settled :=
    API.resolve sig (Card.activatePhysicalExpensifyCard cardLastFourDigits cardID (API.init s)) in
  Card.clearCardListErrors cardID (API.store settled) = API.store settled.
Proof.
  intros settled.
  assert (Hsettled : API.store settled
    = Onyx.update
        ([Onyx.mkUpdate Onyx.MERGE ONYXKEYS.CARD_LIST
            (Card.byCardID cardID (JObj {[ "errors" := JNull; "isLoading" := JBool true ]}))]
         ++ [Onyx.mkUpdate Onyx.MERGE ONYXKEYS.CARD_LIST
               (Card.byCardID cardID (Card.isLoading false))]) s)
    by (by destruct sig).
  rewrite Hsettled, clear_as_update, <- update_app. clear.
  apply map_eq. intros k. rewrite !update_lookup. unfold ops_at. simpl.
  destruct (decide (ONYXKEYS.CARD_LIST = k)) as [<-|Hk]; [|done].
  unfold Card.byCardID, Card.isLoading.
  apply (run_objects_ext [_; _; _] [_; _]); [done|done|]. intros k'.
  rewrite !ops_below_byCardID.
  destruct (decide (k' = pretty cardID)) as [->|Hk']; [|done].
  change (ops_below (pretty cardID) []) with (@nil (Onyx.METHOD * json)).
  apply (run_objects_ext [_; _; _] [_; _]); [done|done|]. intros q.
  rewrite !ops_below_cons.
  destruct (decide (q = "errors")) as [->|Herr].
  { rewrite !lookup_insert_eq, lookup_singleton_ne by done.
    unfold run. cbn [foldl fst snd]. by rewrite !write_null. }
  destruct (decide (q = "isLoading")) as [->|Hload].
  { rewrite !lookup_insert_ne, !lookup_singleton_eq by done.
    unfold run. cbn [foldl fst snd]. by rewrite !write_scalar_true. }
  by rewrite !lookup_insert_ne, !lookup_singleton_ne by done.
Qed.

End card_compose.

(** ** The more-features page *)

Section more_features.

Import WorkspaceMoreFeaturesPage.

Context {Errors : Type}.
Variable isEmptyObject : option (gmap string Connection) → bool.
Variable getLatestErrorField : option Policy → string → Errors.
Variable ARE_CONNECTIONS_ENABLED : string.
Variable POLICY_ACCOUNTING_getRoute : string → string.
Variable canUseAccountingIntegrations : bool.
Variable policy : option Policy.

#[local] Abbreviation hasAccountingConnection :=
  (hasAccountingConnection isEmptyObject policy).
#[local] Abbreviation renderedItems :=
  (renderedItems Errors isEmptyObject getLatestErrorField ARE_CONNECTIONS_ENABLED
     canUseAccountingIntegrations policy).
#[local] Abbreviation sections :=
  (sections Errors isEmptyObject getLatestErrorField ARE_CONNECTIONS_ENABLED
     canUseAccountingIntegrations policy).
#[local] Abbreviation integrateItems :=
  (integrateItems Errors isEmptyObject getLatestErrorField ARE_CONNECTIONS_ENABLED policy).
#[local] Abbreviation organizeItems := (organizeItems Errors isEmptyObject policy).

(** X15.  For every item the page renders: when the item shows the lock
    icon, toggling it makes no call and opens one of the two warning
    modals; when it does not, toggling it makes exactly one call, which
    sets a feature of this policy to the value of the switch, and opens no
    modal. *)
Theorem locked_items_are_intercepted
    (item : Item Errors) (isEnabled : bool) (st : State) :
  item ∈ renderedItems →
  if truthy (disabled item)
  then (action item isEnabled st).2 = []
       ∧ ((action item isEnabled st).1 = openOrganizeWarning st
          ∨ (action item isEnabled st).1 = openIntegrateWarning st)
  else (action item isEnabled st).1 = st
       ∧ ∃ c, (action item isEnabled st).2 = [c]
              ∧ enabling c = Some (policyID policy, isEnabled).
Proof.
  unfold WorkspaceMoreFeaturesPage.renderedItems, WorkspaceMoreFeaturesPage.sections,
    WorkspaceMoreFeaturesPage.spendItems, WorkspaceMoreFeaturesPage.organizeItems,
    WorkspaceMoreFeaturesPage.integrateItems.
  destruct hasAccountingConnection, canUseAccountingIntegrations; simpl;
    intros Hin; repeat (apply elem_of_cons in Hin as [->|Hin]); simpl;
    try (by apply elem_of_nil in Hin); eauto.
Qed.

(** X16.  While the policy has an accounting connection, the connections
    item is shown active and locked, and so are the three items of the
    organize section locked; a toggle of the connections item makes no
    call, and confirming the warning it opens closes the warning again and
    navigates to the accounting page of the policy. *)
Theorem accounting_connection_locks_features (isEnabled : bool) (st : State) :
  hasAccountingConnection = true →
  Forall (λ item, isActive item = true ∧ disabled item = Some true
                  ∧ action item isEnabled st = (openIntegrateWarning st, []))
    integrateItems
  ∧ Forall (λ item, disabled item = Some true
                    ∧ action item isEnabled st = (openOrganizeWarning st, []))
      organizeItems
  ∧ integrateWarning_onConfirm POLICY_ACCOUNTING_getRoute policy (openIntegrateWarning st)
    = ({| isOrganizeWarningModalOpen := isOrganizeWarningModalOpen st;
          isIntegrateWarningModalOpen := false |},
       [Navigation_navigate (POLICY_ACCOUNTING_getRoute (policyID policy))]).
Proof.
  intros Hconn.
  assert (Hactive : truthy (policy ≫= areConnectionsEnabled) = true).
  { unfold WorkspaceMoreFeaturesPage.hasAccountingConnection in Hconn.
    by apply andb_true_iff in Hconn as [? _]. }
  unfold WorkspaceMoreFeaturesPage.integrateItems, WorkspaceMoreFeaturesPage.organizeItems.
  rewrite Hconn. split_and!; [|by repeat constructor|done].
  repeat constructor; simpl; done.
Qed.

(** X17.  The keys under which the page renders its sections and its
    items are all different, whatever the policy and the permissions. *)
Theorem rendered_keys_are_distinct :
  NoDup (sectionTitleTranslationKey <$> sections)
  ∧ NoDup (titleTranslationKey <$> renderedItems).
Proof.
  unfold WorkspaceMoreFeaturesPage.renderedItems, WorkspaceMoreFeaturesPage.sections.
  destruct canUseAccountingIntegrations; simpl; split;
    by apply (bool_decide_unpack _); vm_compute.
Qed.

End more_features.

(** ** The map view *)

Section map_view.

Import MapView.

Context {Num : Type}.
Variable zero : Num.
Variable areSameCoordinate : Num * Num → Num * Num → bool.
Variable getBounds : list (Num * Num) → option (list (Num * Num)) → (Num * Num) * (Num * Num).
Variable DEFAULT_ZOOM : Num.
Variable SINGLE_MARKER_ZOOM : Num.
Variable waypoints : option (list (Waypoint Num)).
Variable cachedUserLocation : option (Position Num).
Variable initialState : option (InitialState Num).
Variable directionCoordinates : option (list (Num * Num)).

#[local] Abbreviation step := (step Num waypoints cachedUserLocation initialState).
#[local] Abbreviation steps := (steps Num waypoints cachedUserLocation initialState).
#[local] Abbreviation onFocus := (onFocus Num waypoints cachedUserLocation initialState).
#[local] Abbreviation noWaypoints := (noWaypoints Num waypoints).
#[local] Abbreviation panToCurrentPosition :=
  (panToCurrentPosition Num DEFAULT_ZOOM waypoints).
#[local] Abbreviation resetBoundaries :=
  (resetBoundaries Num zero areSameCoordinate getBounds SINGLE_MARKER_ZOOM waypoints
     directionCoordinates).

Lemma map_steps_cons i inputs st :
  steps (i :: inputs) st
  = ((steps inputs (step i st).1).1, (step i st).2 ++ (steps inputs (step i st).1).2).
Proof.
  simpl. destruct (step i st) as [st1 calls1]. simpl.
  by destruct (steps inputs st1) as [st2 calls2].
Qed.

Lemma positionRequests_app (l1 l2 : list (Call Num)) :
  positionRequests Num (l1 ++ l2) = positionRequests Num l1 + positionRequests Num l2.
Proof. unfold positionRequests. by rewrite omap_app, length_app. Qed.

(** One step asks the location service at most once, and only by using
    up the flag, online, with no waypoints and an untouched map; the flag,
    once down, stays down, and so does the mark of a drag stay. *)
Lemma step_position_request i st :
  (positionRequests Num (step i st).2 = 0
   ∨ (positionRequests Num (step i st).2 = 1
      ∧ i = Focus Num false
      ∧ shouldInitializeCurrentPosition Num st = true
      ∧ shouldInitializeCurrentPosition Num (step i st).1 = false
      ∧ noWaypoints = true ∧ userInteractedWithMap Num st = false))
  ∧ (shouldInitializeCurrentPosition Num st = false →
     shouldInitializeCurrentPosition Num (step i st).1 = false)
  ∧ (userInteractedWithMap Num st = true →
     userInteractedWithMap Num (step i st).1 = true).
Proof.
  destruct i as [[]|coords| | |]; simpl;
    unfold MapView.onFocus, MapView.shouldPanMapToCurrentPosition,
      MapView.setCurrentPositionToInitialState; simpl;
    try (split_and!; [by left|done|done]).
  - destruct (shouldInitializeCurrentPosition Num st) eqn:Hflag; simpl;
      [|split_and!; [by left|done|done]].
    destruct (userInteractedWithMap Num st) eqn:Hdrag; simpl.
    + split_and!; [left|done|];
        by destruct cachedUserLocation, initialState.
    + destruct noWaypoints eqn:Hway; simpl.
      * split_and!; [right|done|done]. by split_and!.
      * split_and!; [left|done|done];
          by destruct cachedUserLocation, initialState.
  - split_and!; [by left|..]; by destruct cachedUserLocation, initialState.
Qed.

(** X18.  In every run of a mounted map view the location service is
    asked at most once, and not at all when the flag is already used up,
    when there are waypoints, or when the user had dragged the map
    before. *)
Theorem location_is_requested_at_most_once (inputs : list (Input Num)) :
  ∀ st,
    positionRequests Num (steps inputs st).2 <= 1
    ∧ (shouldInitializeCurrentPosition Num st = false ∨ noWaypoints = false
       ∨ userInteractedWithMap Num st = true →
       positionRequests Num (steps inputs st).2 = 0).
Proof.
  induction inputs as [|i inputs IH]; intros st.
  { split; [unfold positionRequests; simpl; lia|done]. }
  rewrite map_steps_cons. cbn [snd]. rewrite positionRequests_app.
  destruct (step_position_request i st) as (Hnow & Hflag & Hdrag).
  destruct (IH (step i st).1) as [Hle Hzero].
  split.
  - destruct Hnow as [->|(-> & _ & _ & Hdown & _)]; [lia|].
    rewrite Hzero; [lia|by left].
  - intros Hnone. destruct Hnow as [->|(_ & _ & Hup & _ & Hway & Hfresh)].
    + simpl. apply Hzero. destruct Hnone as [Hdown|[Hway|Hdragged]]; auto.
    + destruct Hnone as [Hdown|[Hway'|Hdragged]]; congruence.
Qed.

Lemma steps_keep_drag (inputs : list (Input Num)) :
  ∀ st, userInteractedWithMap Num st = true →
    userInteractedWithMap Num (steps inputs st).1 = true.
Proof.
  induction inputs as [|i inputs IH]; intros st Hdrag; [done|].
  rewrite map_steps_cons. cbn [fst]. apply IH.
  by apply (step_position_request i st).
Qed.

(** X19.  Once the user has dragged the map, the map is not panned to the
    current position any more, whatever happens afterwards. *)
Theorem map_is_not_panned_after_a_drag (inputs : list (Input Num)) :
  ∀ st, Drag Num ∈ inputs → panToCurrentPosition (steps inputs st).1 = [].
Proof.
  induction inputs as [|i inputs IH]; intros st Hin; [by apply elem_of_nil in Hin|].
  rewrite map_steps_cons. cbn [fst].
  apply elem_of_cons in Hin as [<-|Hin]; [|by apply IH].
  assert (Hdrag : userInteractedWithMap Num (steps inputs (step (Drag Num) st).1).1 = true)
    by (by apply steps_keep_drag).
  unfold MapView.panToCurrentPosition, MapView.shouldPanMapToCurrentPosition.
  rewrite Hdrag. simpl.
  destruct (currentPosition Num _); [|done]. by destruct (mapRef Num _).
Qed.

(** X20.  The two effects that move the map never both do: the map is
    panned to the current position only when there are no waypoints and
    the user has not dragged it, and then [resetBoundaries] does nothing;
    whenever [resetBoundaries] moves the map, the pan effect does not. *)
Theorem map_is_moved_by_one_effect_only (st : State Num) :
  (panToCurrentPosition st ≠ [] →
   noWaypoints = true ∧ userInteractedWithMap Num st = false
   ∧ resetBoundaries st = (None, []))
  ∧ ((resetBoundaries st).2 ≠ [] → panToCurrentPosition st = []).
Proof.
  unfold MapView.panToCurrentPosition, MapView.shouldPanMapToCurrentPosition,
    MapView.resetBoundaries, MapView.noWaypoints.
  destruct waypoints as [[|w ws]|]; simpl.
  - split; [|done]. intros Hpan. split_and!; try done.
    destruct (userInteractedWithMap Num st); [|done]. exfalso. apply Hpan.
    destruct (currentPosition Num st); [|done]. by destruct (mapRef Num st).
  - split.
    + intros Hpan. exfalso. apply Hpan.
      destruct (currentPosition Num st); [|done]. destruct (mapRef Num st); [|done].
      simpl. by rewrite andb_false_r.
    + intros _. destruct (currentPosition Num st); [|done].
      destruct (mapRef Num st); [|done]. simpl. by rewrite andb_false_r.
  - split; [|done]. intros Hpan. split_and!; try done.
    destruct (userInteractedWithMap Num st); [|done]. exfalso. apply Hpan.
    destruct (currentPosition Num st); [|done]. by destruct (mapRef Num st).
Qed.

Lemma savedLocations_app (l1 l2 : list (Call Num)) :
  savedLocations Num (l1 ++ l2) = savedLocations Num l1 ++ savedLocations Num l2.
Proof. apply omap_app. Qed.

(** X21.  The positions stored as the user location are exactly the
    positions that the location service has reported, in order: neither
    the initial location nor a cached one is ever stored. *)
Theorem only_found_positions_are_stored (inputs : list (Input Num)) :
  ∀ st, savedLocations Num (steps inputs st).2
        = omap (λ i, match i with PositionFound _ p => Some p | _ => None end) inputs.
Proof.
  induction inputs as [|i inputs IH]; intros st; [done|].
  rewrite map_steps_cons. cbn [snd]. rewrite savedLocations_app, IH.
  destruct i as [[]|coords| | |]; simpl; try done.
  - unfold MapView.onFocus.
    destruct (shouldInitializeCurrentPosition Num st); simpl; [|done].
    by destruct (MapView.shouldPanMapToCurrentPosition Num waypoints _).
Qed.

End map_view.

(** ** The wallet module *)

Section wallet.

Import RNWallet.

Context {Data Handler : Type}.
Variable base64EncodedString : Data → string.
Variable initWithBase64EncodedString : string → option Data.

#[local] Abbreviation steps := (steps Data Handler base64EncodedString initWithBase64EncodedString).
#[local] Abbreviation generateRequest :=
  (generateRequestWithCertificateChain Data Handler base64EncodedString).
#[local] Abbreviation completeAddPaymentPass :=
  (completeAddPaymentPass Data Handler initWithBase64EncodedString).

Lemma eventNames_app (l1 l2 : list (Effect Data Handler)) :
  eventNames Data Handler (l1 ++ l2) = eventNames Data Handler l1 ++ eventNames Data Handler l2.
Proof. apply omap_app. Qed.

Lemma wallet_steps_complete a e k inputs st :
  steps (CompleteAddPaymentPass Data Handler a e k :: inputs) st
  = ((steps inputs st).1.1,
     (completeAddPaymentPass a e k st).2 ++ (steps inputs st).1.2,
     (steps inputs st).2).
Proof.
  simpl. destruct st as [h|]; simpl;
    by destruct (steps inputs _) as [[st2 effects2] raised].
Qed.

Lemma wallet_steps_finish error inputs st :
  steps (DidFinishAddingPaymentPass Data Handler error :: inputs) st
  = ((steps inputs st).1.1,
     (didFinishAddingPaymentPass Data Handler error st).2 ++ (steps inputs st).1.2,
     (steps inputs st).2).
Proof. simpl. by destruct (steps inputs st) as [[st2 effects2] raised]. Qed.

Lemma wallet_steps_generate certificates nonce nonceSignature handler inputs st :
  steps (GenerateRequest Data Handler certificates nonce nonceSignature handler :: inputs) st
  = match (generateRequest certificates nonce nonceSignature handler st).2 with
    | inl effects1 =>
        ((steps inputs (Some handler)).1.1,
         effects1 ++ (steps inputs (Some handler)).1.2,
         (steps inputs (Some handler)).2)
    | inr exception => (Some handler, [], Some exception)
    end.
Proof.
  simpl. destruct (certificates !! 0); [|done]. destruct (certificates !! 1); [|done].
  by destruct (steps inputs (Some handler)) as [[st2 effects2] raised].
Qed.

(** X22.  Every event the module sends, in any run, carries one of the
    names it declares in [supportedEvents]. *)
Theorem sent_events_are_supported (inputs : list (Input Data Handler)) :
  ∀ st, Forall (λ name, name ∈ supportedEvents)
          (eventNames Data Handler (steps inputs st).1.2).
Proof.
  induction inputs as [|i inputs IH]; intros st; [by constructor|].
  destruct i as [a e k|error|certificates nonce nonceSignature handler].
  - rewrite wallet_steps_complete. cbn [fst snd].
    rewrite eventNames_app. apply Forall_app. split; [|apply IH].
    destruct st; by constructor.
  - rewrite wallet_steps_finish. cbn [fst snd].
    rewrite eventNames_app. apply Forall_app. split; [|apply IH].
    simpl. constructor; [|by constructor]. unfold supportedEvents. set_solver.
  - rewrite wallet_steps_generate. unfold generateRequestWithCertificateChain. cbn [snd].
    destruct (certificates !! 0) as [leaf|]; [|by constructor].
    destruct (certificates !! 1) as [subCA|]; [|by constructor].
    cbn [fst snd]. rewrite eventNames_app. apply Forall_app. split; [|apply IH].
    simpl. constructor; [|by constructor]. unfold supportedEvents. set_solver.
Qed.

(** X23.  After a run without exception the module holds the completion
    handler that PassKit handed over last, or the one it held before when
    none was handed over; [completeAddPaymentPass] then calls this
    handler, once, with the three strings decoded, and calls nothing when
    there is none. *)
Theorem completion_handler_is_the_latest
    (inputs : list (Input Data Handler)) (activation encrypted ephemeral : string) :
  ∀ st, (steps inputs st).2 = None →
    let held := (steps inputs st).1.1 in
    held = match last (handlersGiven Data Handler inputs) with
           | Some h => Some h
           | None => st
           end
    ∧ (completeAddPaymentPass activation encrypted ephemeral held).2
      = match held with
        | Some h =>
            [callCompletionHandler Data Handler h
               {| activationData := initWithBase64EncodedString activation;
                  encryptedPassData := initWithBase64EncodedString encrypted;
                  ephemeralPublicKey := initWithBase64EncodedString ephemeral |}]
        | None => []
        end.
Proof.
  intros st Hok held. split; [|by destruct held].
  subst held. revert st Hok.
  induction inputs as [|i inputs IH]; intros st Hok; [done|].
  destruct i as [a e k|error|certificates nonce nonceSignature handler].
  - rewrite wallet_steps_complete in *. cbn [fst snd] in *. by apply IH.
  - rewrite wallet_steps_finish in *. cbn [fst snd] in *. by apply IH.
  - rewrite wallet_steps_generate in *.
    destruct (generateRequest certificates nonce nonceSignature handler st).2
      as [effects1|exception]; [|done].
    cbn [fst snd] in *. rewrite (IH _ Hok). simpl. rewrite last_cons.
    by destruct (last _).
Qed.

(** X24.  When PassKit hands over fewer than two certificates,
    [generateRequestWithCertificateChain] raises a range exception: no
    event is sent, the run ends there, and the completion handler has
    been stored all the same. *)
Theorem short_certificate_chain_raises
    (certificates : list Data) (nonce nonceSignature : Data) (handler : Handler)
    (rest : list (Input Data Handler)) (st : State Handler) :
  length certificates < 2 →
  generateRequest certificates nonce nonceSignature handler st
  = (Some handler, inr "NSRangeException")
  ∧ steps (GenerateRequest Data Handler certificates nonce nonceSignature handler :: rest) st
    = (Some handler, [], Some "NSRangeException").
Proof.
  intros Hshort.
  assert (Hgen : generateRequest certificates nonce nonceSignature handler st
                 = (Some handler, inr "NSRangeException")).
  { unfold generateRequestWithCertificateChain.
    destruct certificates as [|leaf [|subCA more]]; simpl in *; [done|done|lia]. }
  split; [done|]. by rewrite wallet_steps_generate, Hgen.
Qed.

End wallet.

(** ** Further runs on concrete inputs *)

Section further_runs.

Import ReportActionItemMessageEdit.

Lemma publishDraft_commits_trimmed_draft_witness :
  JS.trim (draft (Sample.editing " Hello there ")) ≠ EmptyString
  ∧ Sample.getCommentLength (draft (Sample.editing " Hello there "))
    <= Sample.MAX_COMMENT_LENGTH
  ∧ editMutations
      (publishDraft unit Sample.getCommentLength Sample.MAX_COMMENT_LENGTH Sample.reportID
         Sample.action Sample.report 1 (Sample.editing " Hello there ")).2
    = ["Hello there"].
Proof.
  assert (H1 : JS.trim (draft (Sample.editing " Hello there ")) ≠ EmptyString)
    by (vm_compute; discriminate).
  assert (H2 : Sample.getCommentLength (draft (Sample.editing " Hello there "))
               <= Sample.MAX_COMMENT_LENGTH)
    by (vm_compute; lia).
  split_and!; [exact H1|exact H2|].
  exact (proj1 (proj2 (publishDraft_commits_trimmed_draft Sample.replaceEmojis
                         Sample.getFrequentlyUsedEmojis Sample.getCommentLength
                         Sample.MAX_COMMENT_LENGTH Sample.reportID Sample.action Sample.report
                         1 tt (Sample.editing " Hello there ") Sample.world [] H1 H2))).
Defined.

Lemma draft_writes_come_from_updateDraft_witness :
  "Hello &lt;3"
  ∈ draftWrites (Sample.steps [ChangeText "Hello <3"; Elapse 1000] (Sample.editing "Hello")).2
  ∧ ∃ input, ChangeText input ∈ [ChangeText "Hello <3"; Elapse 1000]
             ∧ "Hello &lt;3" = draftToSave Sample.action input.
Proof.
  assert (H : "Hello &lt;3"
              ∈ draftWrites
                  (Sample.steps [ChangeText "Hello <3"; Elapse 1000]
                     (Sample.editing "Hello")).2)
    by (apply list_elem_of_In; vm_compute; auto).
  split; [exact H|].
  destruct (draft_writes_come_from_updateDraft Sample.replaceEmojis
              Sample.getFrequentlyUsedEmojis Sample.getCommentLength Sample.MAX_COMMENT_LENGTH
              Sample.reportID Sample.action Sample.report 1 tt
              [ChangeText "Hello <3"; Elapse 1000] (Sample.editing "Hello") "Hello &lt;3" H)
    as [[Hempty _]|[[due Hpending]|Hinput]];
    [discriminate Hempty|discriminate Hpending|exact Hinput].
Defined.

Lemma no_empty_draft_written_while_typing_witness :
  message_0_html Sample.action ≠ EmptyString
  ∧ (PressSave ∉ [ChangeText "  "; Elapse 1000; ChangeText "Hi"; Elapse 2000])
  ∧ (PressCancel ∉ [ChangeText "  "; Elapse 1000; ChangeText "Hi"; Elapse 2000])
  ∧ Forall (λ d, d ≠ EmptyString)
      (draftWrites
         (Sample.steps [ChangeText "  "; Elapse 1000; ChangeText "Hi"; Elapse 2000]
            (Sample.editing "Hello")).2).
Proof.
  assert (H1 : message_0_html Sample.action ≠ EmptyString) by (vm_compute; discriminate).
  assert (H2 : ∀ due, debouncedSaveDraft (Sample.editing "Hello") ≠ Some (due, EmptyString))
    by (intros due; vm_compute; discriminate).
  assert (H3 : PressSave ∉ [ChangeText "  "; Elapse 1000; ChangeText "Hi"; Elapse 2000])
    by (rewrite list_elem_of_In; simpl; intros [H|[H|[H|[H|[]]]]]; discriminate H).
  assert (H4 : PressCancel ∉ [ChangeText "  "; Elapse 1000; ChangeText "Hi"; Elapse 2000])
    by (rewrite list_elem_of_In; simpl; intros [H|[H|[H|[H|[]]]]]; discriminate H).
  split_and!; [exact H1|exact H3|exact H4|].
  exact (no_empty_draft_written_while_typing Sample.replaceEmojis
           Sample.getFrequentlyUsedEmojis Sample.getCommentLength Sample.MAX_COMMENT_LENGTH
           Sample.reportID Sample.action Sample.report 1 tt
           [ChangeText "  "; Elapse 1000; ChangeText "Hi"; Elapse 2000]
           (Sample.editing "Hello") H1 H2 H3 H4).
Defined.


Lemma remount_after_blank_edit_witness :
  JS.trim (default EmptyString (text (Sample.replaceEmojis "  " tt))) = EmptyString
  ∧ 1000 <= 1500
  ∧ drafts
      (performAll (Sample.steps [ChangeText "  "; Elapse 1500] (Sample.editing "Hello")).2
         Sample.world)
    !! (Sample.reportID, reportActionID Sample.action)
    = Some "Hello"
  ∧ draft (mounted Sample.action Scenario.htmlToMarkdown Scenario.htmlDecode "Hello" 0)
    = "Hello".
Proof.
  assert (H2 : 1000 <= 1500) by lia.
  split_and!; [reflexivity|exact H2|..].
  - exact (proj1 (remount_after_blank_edit Sample.replaceEmojis Sample.getFrequentlyUsedEmojis
                    Sample.getCommentLength Sample.MAX_COMMENT_LENGTH Sample.reportID
                    Sample.action Sample.report 1 tt Scenario.htmlToMarkdown
                    Scenario.htmlDecode "  " (Sample.editing "Hello") Sample.world 1500 0
                    eq_refl H2)).
  - reflexivity.
Defined.

Lemma edited_draft_is_told_from_original_witness :
  In "<"%char Unescape.markup
  ∧ In "<"%char (list_ascii_of_string (message_0_html Scenario.formatted))
  ∧ JS.trim "<strong>Hi</strong>" ≠ EmptyString
  ∧ draftToSave Scenario.formatted "<strong>Hi</strong>" ≠ message_0_html Scenario.formatted.
Proof.
  assert (H1 : In "<"%char Unescape.markup) by (simpl; auto).
  assert (H2 : In "<"%char (list_ascii_of_string (message_0_html Scenario.formatted)))
    by (simpl; auto).
  assert (H3 : JS.trim "<strong>Hi</strong>" ≠ EmptyString) by (vm_compute; discriminate).
  split_and!; [exact H1|exact H2|exact H3|].
  exact (proj1 (edited_draft_is_told_from_original Scenario.formatted Scenario.htmlToMarkdown
                  Scenario.htmlDecode "<strong>Hi</strong>" "<"%char 0 H1 H2 H3)).
Defined.

Lemma different_drafts_are_saved_differently_witness :
  JS.trim "a < b" ≠ EmptyString
  ∧ draftToSave Sample.action "a < b" = "a &lt; b"
  ∧ "a < b" = "a < b".
Proof.
  assert (H1 : JS.trim "a < b" ≠ EmptyString) by (vm_compute; discriminate).
  split_and!; [exact H1|reflexivity|].
  exact (different_drafts_are_saved_differently Sample.action "a < b" "a < b" H1 H1 eq_refl).
Defined.

End further_runs.

Section further_runs_page.

Import WorkspaceMoreFeaturesPage.

Lemma locked_items_are_intercepted_witness :
  Scenario.tagsItem ∈ Scenario.items
  ∧ truthy (disabled Scenario.tagsItem) = true
  ∧ (action Scenario.tagsItem true Scenario.modalsClosed).2 = [].
Proof.
  assert (H : Scenario.tagsItem ∈ Scenario.items)
    by (apply list_elem_of_In; unfold Scenario.tagsItem; apply nth_In; vm_compute; lia).
  split_and!; [exact H|reflexivity|].
  pose proof (locked_items_are_intercepted Scenario.isEmptyObject Scenario.getLatestErrorField
                "areConnectionsEnabled" true (Some Scenario.connected) Scenario.tagsItem true
                Scenario.modalsClosed H) as Hlocked.
  change (truthy (disabled Scenario.tagsItem)) with true in Hlocked.
  exact (proj1 Hlocked).
Defined.

Lemma accounting_connection_locks_features_witness :
  hasAccountingConnection Scenario.isEmptyObject (Some Scenario.connected) = true
  ∧ integrateWarning_onConfirm Scenario.getRoute (Some Scenario.connected)
      (openIntegrateWarning Scenario.modalsClosed)
    = (mkState false false, [Navigation_navigate "settings/workspaces/7A/accounting"]).
Proof.
  assert (H : hasAccountingConnection Scenario.isEmptyObject (Some Scenario.connected) = true)
    by reflexivity.
  split; [exact H|].
  exact (proj2 (proj2 (accounting_connection_locks_features Scenario.isEmptyObject
                         Scenario.getLatestErrorField "areConnectionsEnabled"
                         Scenario.getRoute (Some Scenario.connected) true
                         Scenario.modalsClosed H))).
Defined.

End further_runs_page.

Section further_runs_map.

Import MapView.

Lemma map_is_not_panned_after_a_drag_witness :
  Drag Z ∈ Scenario.mapInputs
  ∧ panToCurrentPosition Z 10%Z None
      (steps Z None None (Some Scenario.mapInitialState) Scenario.mapInputs
         Scenario.mapMounted).1
    = [].
Proof.
  assert (H : Drag Z ∈ Scenario.mapInputs)
    by (apply list_elem_of_In; simpl; auto).
  split; [exact H|].
  exact (map_is_not_panned_after_a_drag 10%Z None None (Some Scenario.mapInitialState)
           Scenario.mapInputs Scenario.mapMounted H).
Defined.

End further_runs_map.

Section further_runs_wallet.

Import RNWallet.

Lemma completion_handler_is_the_latest_witness :
  (Scenario.walletSteps Scenario.walletInputs None).2 = None
  ∧ (Scenario.walletSteps Scenario.walletInputs None).1.1 = Some 2.
Proof.
  assert (H : (Scenario.walletSteps Scenario.walletInputs None).2 = None) by reflexivity.
  split; [exact H|].
  exact (proj1 (completion_handler_is_the_latest (λ data : string, data) Some
                  Scenario.walletInputs "YQ==" "Yg==" "Yw==" None H)).
Defined.

Lemma short_certificate_chain_raises_witness :
  length ["leaf"] < 2
  ∧ Scenario.walletSteps
      (GenerateRequest string nat ["leaf"] "nonce" "signature" 1 :: Scenario.walletInputs) None
    = (Some 1, [], Some "NSRangeException").
Proof.
  assert (H : length ["leaf"] < 2) by (simpl; lia).
  split; [exact H|].
  exact (proj2 (short_certificate_chain_raises (λ data : string, data) Some ["leaf"] "nonce"
                  "signature" 1 Scenario.walletInputs None H)).
Defined.

End further_runs_wallet.
